(** * gravidade2: the N-body integrator of [integracao/integracao.py]

    A shallow embedding of class [RK4] (construction, [guardar_massas],
    [forcas], [runge_kutta4], [aplicarNVezes]) and the properties its
    specification states about it.

    Numbers.  Python floats and numpy float arrays are modelled by the real
    numbers of the Standard Library: the development is about the exact
    arithmetic that the floating-point code approximates.  [x ** (3/2)] on a
    non-negative [x] is [x * sqrt x].

    Division.  The reals have no [inf] and no [nan].  numpy's [true_divide]
    by zero produces them, and [forcas] does divide by zero when two
    different particles are at the same position.  The model's quotient by
    zero is the arbitrary real of the Standard Library and means nothing:
    every theorem about the values of forces and momenta assumes that no two
    different particles coincide ([distintas]), at every pass of the loop
    where the loop is concerned ([sem_colisao]), and shows that the array
    [forcas] divides by ([forcas_norma]) has no zero entry there.

    Arrays.  A numpy array is a nested list, outermost axis first.  The
    embedding follows numpy on arrays of the shapes the integrator is built
    for (N x D positions and momenta, N = number of masses); every theorem
    states the shapes it needs.

    Exceptions.  Python exceptions are values of [exn], carried by
    [result]. *)

From Stdlib Require Import Reals Lra Lia List Arith Bool.
From Stdlib Require String Ascii.
Import ListNotations.
Local Open Scope R_scope.

(** The positions array is called [R] in the source, so the type of real
    numbers is written [real] wherever that name is in scope. *)
Abbreviation real := R (only parsing).

(** ** Exceptions *)

Inductive exn : Set :=
| ZeroDivisionError   (* [1/mi] with [mi == 0] *)
| UnboundLocalError   (* a local name read before any assignment *)
| ArrayError.         (* numpy refusing an array with an empty particle axis *)

Inductive result (A : Type) : Type :=
| Ok (a : A)
| Raise (e : exn).
Arguments Ok {A} a.
Arguments Raise {A} e.

Definition bind {A B} (r : result A) (k : A -> result B) : result B :=
  match r with
  | Ok a => k a
  | Raise e => Raise e
  end.

Notation "x <- c ;; k" := (bind c (fun x => k))
  (at level 61, c at next level, right associativity).
Notation "' p <- c ;; k" := (bind c (fun x => match x with p => k end))
  (at level 61, p pattern, c at next level, right associativity).

(** A comprehension [[f(x) for x in l]] whose body may raise. *)
Fixpoint mapM {A B} (f : A -> result B) (l : list A) : result (list B) :=
  match l with
  | [] => Ok []
  | x :: l' => y <- f x ;; ys <- mapM f l' ;; Ok (y :: ys)
  end.

Definition fails {A} (r : result A) : Prop := exists e, r = Raise e.

(** ** Arrays as nested lists *)

Definition vec := list R.
Definition mat := list vec.
Definition tensor := list mat.

(** [[g(i) for i in range(n)]] *)
Definition tab {A} (n : nat) (g : nat -> A) : list A := map g (seq 0 n).

(** Elementwise combination of two arrays along their outermost axis. *)
Definition zipWith {A B C} (f : A -> B -> C) (l1 : list A) (l2 : list B)
  : list C :=
  map (fun p => f (fst p) (snd p)) (combine l1 l2).

Definition get2 (M : mat) (i k : nat) : R := nth k (nth i M []) 0.
Definition get3 (T : tensor) (i j k : nat) : R :=
  nth k (nth j (nth i T []) []) 0.

(** Elementwise arithmetic on vectors and matrices.  [mdiv] is
    [true_divide] where the divisor has no zero entry; an entry divided by
    zero is [inf] or [nan] in numpy and an arbitrary real here. *)
Definition vadd : vec -> vec -> vec := zipWith Rplus.
Definition madd : mat -> mat -> mat := zipWith vadd.
Definition msub : mat -> mat -> mat := zipWith (zipWith Rminus).
Definition mmul : mat -> mat -> mat := zipWith (zipWith Rmult).
Definition mdiv : mat -> mat -> mat := zipWith (zipWith Rdiv).
Definition tsub : tensor -> tensor -> tensor := zipWith msub.

(** [c * M] for a scalar [c]. *)
Definition mscale (c : R) : mat -> mat := map (map (Rmult c)).
Definition tscale (c : R) : tensor -> tensor := map (mscale c).

(** [numpy.ones((n, n))] and [numpy.identity(n)]. *)
Definition ones (n : nat) : mat := repeat (repeat 1 n) n.
Definition identity (n : nat) : mat :=
  tab n (fun i => tab n (fun j => if Nat.eqb i j then 1 else 0)).

(** Swapping the two outermost axes: [transpose(M)] on a matrix,
    [T.transpose(1,0,2)] on a rank-3 array.  [d] only pads ragged input. *)
Definition transpose {A} (d : A) (M : list (list A)) : list (list A) :=
  tab (length (hd [] M)) (fun j => tab (length M) (fun i => nth j (nth i M []) d)).

(** numpy stretches an axis of length 1 to the length of its partner. *)
Definition broadcast_to {A} (n : nat) (l : list A) : list A :=
  match l with
  | [x] => repeat x n
  | _ => l
  end.

(** [einsum('ij,ijk->ijk', A, T)]: entry [i][j][k] is [A[i][j] * T[i][j][k]]. *)
Definition einsum_ij_ijk (A : mat) (T : tensor) : tensor :=
  zipWith
    (fun Ai Ti =>
       zipWith (fun a v => map (Rmult a) v) Ai (broadcast_to (length Ai) Ti))
    A T.

(** The contraction over the last axis. *)
Definition dot (u v : vec) : R := fold_left Rplus (zipWith Rmult u v) 0.

(** [einsum('ijk,ijk->ij', A, B)]: entry [i][j] is [sum_k A[i][j][k] * B[i][j][k]]. *)
Definition einsum_ijk_ij (A B : tensor) : mat := zipWith (zipWith dot) A B.

(** [x ** (3/2)] for [x >= 0]. *)
Definition pow32 (x : R) : R := x * sqrt x.

(** Python's builtin [sum] over a rank-3 array iterates its first axis:
    [sum(F) = (...((0 + F[0]) + F[1]) + ...) + F[N-1]], an N x D matrix.
    On an empty first axis the builtin returns the integer 0, which has no
    [tolist]. *)
Definition py_sum (F : tensor) : result mat :=
  match F with
  | [] => Raise ArrayError
  | F0 :: Fs => Ok (fold_left madd Fs (map (map (Rplus 0)) F0))
  end.

(** ** The integrator object *)

Record RK4 : Type := mkRK4 {
  dimensao : nat;
  qntd : nat;
  h : R;
  G : R;
  massas : list R;
  massasDuplicadasInvertidas : mat;
  prodM : mat;
  vetorUm : mat;
  identidade : mat
}.

(** Python's [x / y] on floats. *)
Definition py_div (x y : R) : result R :=
  if Req_dec_T y 0 then Raise ZeroDivisionError else Ok (x / y).

(** [guardar_massas]: the inverse-mass array and the mass-product matrix. *)
Definition guardar_massas (dimensao qntd : nat) (massas : list R)
  : result (mat * mat) :=
  inv <- mapM (fun mi => mapM (fun _ => py_div 1 mi) (seq 0 dimensao)) massas ;;
  let MA :=
    tab qntd (fun i =>
      tab qntd (fun j => if Nat.eqb j i then 0 else nth j massas 0)) in
  Ok (inv, mmul MA (transpose 0 MA)).

(** [RK4.__init__], with [h], [G] and [dimensao] given. *)
Definition init (massas : list R) (h G : R) (dimensao : nat) : result RK4 :=
  let qntd := length massas in
  '(inv, prod) <- guardar_massas dimensao qntd massas ;;
  Ok (mkRK4 dimensao qntd h G massas inv prod (ones qntd) (identity qntd)).

(** The local [difX] of [forcas]: the pairwise displacements. *)
Definition forcas_difX (rk : RK4) (R : mat) : tensor :=
  let X := map (fun Ri => [Ri]) R in
  let X := einsum_ij_ijk (vetorUm rk) X in
  tsub X (transpose [] X).

(** The local [norma] of [forcas]: the array that [prodM] is divided by. *)
Definition forcas_norma (rk : RK4) (R : mat) : mat :=
  let difX := forcas_difX rk R in
  madd (map (map pow32) (einsum_ijk_ij difX difX)) (identidade rk).

(** [forcas]: the pairwise force array [F] and its reduction [FSomas].  The
    entries of [F] and [FSomas] are the code's where [forcas_norma] has no
    zero entry; see the note on division above. *)
Definition forcas (rk : RK4) (R : mat) : result (tensor * mat) :=
  let difX := forcas_difX rk R in
  let norma := forcas_norma rk R in
  let F := mdiv (prodM rk) norma in
  let F := tscale (G rk) (einsum_ij_ijk F difX) in
  FSomas <- py_sum F ;;
  Ok (F, FSomas).

(** [runge_kutta4]: new positions and new momenta. *)
Definition runge_kutta4 (rk : RK4) (R P FSomas : mat) : mat * mat :=
  let k1_vet := mmul P (massasDuplicadasInvertidas rk) in
  let k1_1m := mmul k1_vet (massasDuplicadasInvertidas rk) in
  let k1_2m := mmul k1_1m (massasDuplicadasInvertidas rk) in
  let k1_3m := mmul k1_2m (massasDuplicadasInvertidas rk) in
  let fator :=
    mscale (h rk / 6)
      (madd (madd (madd (mscale 6 k1_vet) (mscale (3 * h rk) k1_1m))
                  (mscale (h rk ^ 2) k1_2m))
            (mscale (0.25 * h rk ^ 3) k1_3m)) in
  let novas_posicoes := madd R fator in
  let novos_momentos := madd P (mscale (h rk) FSomas) in
  (novas_posicoes, novos_momentos).

(** The body of the [for] loop of [aplicarNVezes], run [n] times.  The local
    name [F] is unbound ([None]) until the body has run once. *)
Fixpoint laco (rk : RK4) (n : nat) (R P : mat) (F : option tensor)
  : result (mat * mat * option tensor) :=
  match n with
  | O => Ok (R, P, F)
  | S n' =>
      '(F', FSomas) <- forcas rk R ;;
      let '(R', P') := runge_kutta4 rk R P FSomas in
      laco rk n' R' P' (Some F')
  end.

(** [aplicarNVezes(R, P, n, E)]. *)
Definition aplicarNVezes (rk : RK4) (R P : mat) (n : nat) (E : real)
  : result (mat * mat * tensor) :=
  '(R', P', F) <- laco rk n R P None ;;
  match F with
  | Some F' => Ok (R', P', F')
  | None => Raise UnboundLocalError
  end.

(** ** Vocabulary of the specification *)

(** [sum_{i < n} f i], added in index order starting from 0. *)
Fixpoint rsum (n : nat) (f : nat -> R) : R :=
  match n with
  | O => 0
  | S n' => rsum n' f + f n'
  end.

(** An [N x D] array. *)
Definition shape2 (N D : nat) (M : mat) : Prop :=
  length M = N /\ Forall (fun r => length r = D) M.

(** An [N x N x D] array. *)
Definition shape3 (N D : nat) (T : tensor) : Prop :=
  length T = N /\ Forall (shape2 N D) T.

(** Total momentum: component [k] of [sum_i P[i]]. *)
Definition total (N : nat) (P : mat) (k : nat) : R :=
  rsum N (fun i => get2 P i k).

(** The denominator of the pair [(i, j)]: the squared Euclidean distance to
    the power 3/2, plus the entry of the identity matrix. *)
Definition denom (D : nat) (R : mat) (i j : nat) : real :=
  pow32 (rsum D (fun k => (get2 R i k - get2 R j k) * (get2 R i k - get2 R j k)))
  + (if Nat.eqb i j then 1 else 0).

(** No two different particles at the same position. *)
Definition distintas (N D : nat) (R : mat) : Prop :=
  forall i j, (i < N)%nat -> (j < N)%nat -> i <> j ->
    exists k, (k < D)%nat /\ get2 R i k <> get2 R j k.

(** No two different particles coincide at the positions that enter any of
    the first [n] passes of the loop of [aplicarNVezes]. *)
Definition sem_colisao (rk : RK4) (N D n : nat) (R P : mat) : Prop :=
  forall m Rm Pm Fm, (m < n)%nat ->
    laco rk m R P None = Ok (Rm, Pm, Fm) -> distintas N D Rm.

(** Arrays given by their entries. *)
Definition tab2 {A} (N D : nat) (f : nat -> nat -> A) : list (list A) :=
  tab N (fun i => tab D (f i)).
Definition tab3 (N M D : nat) (f : nat -> nat -> nat -> real) : tensor :=
  tab2 N M (fun i j => tab D (f i j)).

(** Entry [i][j][k] of the array [F] that [forcas] builds from positions
    with entries [r], mass products [pm] and constant [g], operation by
    operation. *)
Definition F_entry (g : R) (pm : nat -> nat -> R) (D : nat)
  (r : nat -> nat -> R) (i j k : nat) : R :=
  g * (pm i j
       / (pow32 (rsum D (fun k' => (1 * r i k' - 1 * r j k')
                                   * (1 * r i k' - 1 * r j k')))
          + (if Nat.eqb i j then 1 else 0))
       * (1 * r i k - 1 * r j k)).

(** Entry [i][j] of [prodM]. *)
Definition prodM_entry (massas : list R) (i j : nat) : R :=
  (if Nat.eqb j i then 0 else nth j massas 0)
  * (if Nat.eqb i j then 0 else nth i massas 0).

(** The object that [init] returns when it returns. *)
Definition built (massas : list R) (h G : R) (dimensao : nat) : RK4 :=
  let N := length massas in
  mkRK4 dimensao N h G massas
    (tab2 N dimensao (fun i _ => 1 / nth i massas 0))
    (tab2 N N (prodM_entry massas))
    (ones N) (identity N).

(** Entry [i][k] of the positions that [runge_kutta4] returns, from step
    [h], inverse masses [iv], positions [r] and momenta [p], operation by
    operation. *)
Definition novaR_entry (h : R) (iv r p : nat -> nat -> R) (i k : nat) : R :=
  r i k
  + h / 6
    * (6 * (p i k * iv i k)
       + 3 * h * (p i k * iv i k * iv i k)
       + h ^ 2 * (p i k * iv i k * iv i k * iv i k)
       + 0.25 * h ^ 3 * (p i k * iv i k * iv i k * iv i k * iv i k)).

(** The mass list of the data model: at least one mass, all positive. *)
Definition massas_validas (massas : list R) : Prop :=
  massas <> [] /\ Forall (fun m => 0 < m) massas.

(** The two-body scenario of the specification: unit masses at -1 and 1 on
    a line, at rest, with [G = 1] and [h = 0.01]. *)
Definition massas_dois : list R := [1; 1].
Definition R_dois : mat := [[-1]; [1]].
Definition P_dois : mat := [[0]; [0]].
Definition rk_dois : RK4 := built massas_dois 0.01 1 1.

(** The distance between the two bodies of a one-dimensional two-body
    state. *)
Definition separacao (R : mat) : real := Rabs (get2 R 1 0 - get2 R 0 0).

(** What one step adds to a position component of a particle with inverse
    mass [iv] and momentum component [p]. *)
Definition avanco (h iv p : real) : real :=
  h / 6
  * (6 * (p * iv)
     + 3 * h * (p * iv * iv)
     + h ^ 2 * (p * iv * iv * iv)
     + 0.25 * h ^ 3 * (p * iv * iv * iv * iv)).

(** [R + c] for a vector [c]: every particle displaced by [c]. *)
Definition transladar (c : vec) (R : mat) : mat := map (fun Ri => vadd Ri c) R.

(** ** The driver object of [simulacao/simular.py]

    [H], the energy of [auxiliares/hamiltoniano.py], the separator
    [dados['SEPARADOR']] of [config/configs.py] and Python's [str] on floats
    are not part of this development: they are parameters.  Files are a store
    from paths to contents; the directory [pontos/] is taken to exist. *)

Module Simular.

Import String.

Definition nl : string := String (Ascii.ascii_of_nat 10) EmptyString.

(** [s[:-1]] *)
Fixpoint sem_ultimo (s : string) : string :=
  match s with
  | EmptyString => EmptyString
  | String c EmptyString => EmptyString
  | String c s' => String c (sem_ultimo s')
  end.

(** The file store, [open(path, 'w').write(txt)] and
    [open(path, 'a').write(txt)]. *)
Definition arquivos : Type := string -> option string.

Definition escrever (fs : arquivos) (path txt : string) : arquivos :=
  fun p => if String.eqb p path then Some txt else fs p.

Definition acrescentar (fs : arquivos) (path txt : string) : arquivos :=
  fun p =>
    if String.eqb p path then
      Some (match fs path with
            | Some old => append old txt
            | None => txt
            end)
    else fs p.

(** How many line breaks a text holds. *)
Fixpoint quebras (s : string) : nat :=
  match s with
  | EmptyString => 0
  | String c s' =>
      (if Ascii.eqb c (Ascii.ascii_of_nat 10) then 1 else 0) + quebras s'
  end.

(** [from integracao.integracao import RK4 as metodo_integracao] *)
Definition metodo_integracao := init.

Section Parametros.

Variable ExnH : Type.
Variable H : mat -> mat -> list real -> ExnH + real.
Variable str : real -> string.
Variable SEPARADOR : string.

(** What construction can raise: [R0[0]] on an empty [R0], an exception of
    the integrator's construction, an exception of [H]. *)
Inductive exn_sim : Type :=
| IndexError
| DoMetodo (e : exn)
| DoH (e : ExnH).

Record Simulacao : Type := mkSimulacao {
  massas : list real;
  quantidade_corpos : nat;
  dimensao : nat;
  mtot : real;
  R : mat;
  P : mat;
  h : real;
  metodo : RK4;
  E0 : real;
  E : real;
  n : nat
}.

(** [Simulacao.__init__] *)
Definition init (massas : list real) (R0 P0 : mat) (h G : real)
  : exn_sim + Simulacao :=
  let quantidade_corpos := List.length massas in
  match R0 with
  | [] => inl IndexError
  | R00 :: _ =>
      let dimensao := List.length R00 in
      let mtot := fold_left Rplus massas 0%R in
      match metodo_integracao massas h G dimensao with
      | Raise e => inl (DoMetodo e)
      | Ok metodo =>
          match H R0 P0 massas with
          | inl e => inl (DoH e)
          | inr E0 =>
              inr (mkSimulacao massas quantidade_corpos dimensao mtot R0 P0 h
                     metodo E0 E0 100)
          end
      end
  end.

(** The text of a snapshot: one line per point, coordinates separated by
    commas. *)
Definition linhas (pontos : list (list real)) : string :=
  let coords := map (map str) pontos in
  concat nl (map (concat ",") coords).

(** [salvarPontos] *)
Definition salvarPontos (fs : arquivos) (pontos : list (list real))
    (nome : string) : arquivos :=
  acrescentar fs (append "pontos/" nome) (append nl (linhas pontos)).

(** [abrirArquivo] *)
Definition abrirArquivo (fs : arquivos) (massas : list real) (nome : string)
  : arquivos :=
  let m := concat "," (map str massas) in
  escrever fs (append "pontos/" nome) (append m (sem_ultimo SEPARADOR)).

End Parametros.

End Simular.

(** * Properties *)

(** Splits the conjunctions that are written in the goal, and no
    definition that unfolds to one. *)
Ltac split_all := repeat match goal with |- _ /\ _ => split end.

(** ** Comprehensions and elementwise operations *)

Lemma tab_length {A} (n : nat) (g : nat -> A) : length (tab n g) = n.
Proof. unfold tab. now rewrite length_map, length_seq. Qed.

Lemma tab_nth {A} (n : nat) (g : nat -> A) (d : A) (i : nat) :
  (i < n)%nat -> nth i (tab n g) d = g i.
Proof.
  intros Hi. unfold tab.
  rewrite (nth_indep _ d (g 0%nat)) by now rewrite length_map, length_seq.
  rewrite map_nth, seq_nth by assumption. reflexivity.
Qed.

Lemma tab_ext {A} (n : nat) (g g' : nat -> A) :
  (forall i, (i < n)%nat -> g i = g' i) -> tab n g = tab n g'.
Proof.
  intros Hg. unfold tab. apply map_ext_in.
  intros i Hi. apply in_seq in Hi. apply Hg. lia.
Qed.

Lemma tab_S {A} (n : nat) (g : nat -> A) :
  tab (S n) g = g 0%nat :: tab n (fun i => g (S i)).
Proof. unfold tab. cbn [seq map]. now rewrite <- seq_shift, map_map. Qed.

Lemma tab_of_list {A} (d : A) (l : list A) :
  l = tab (length l) (fun i => nth i l d).
Proof.
  induction l as [|x l IH]; [reflexivity|].
  cbn [length]. rewrite tab_S. cbn [nth]. now rewrite <- IH.
Qed.

Lemma map_tab {A B} (f : A -> B) (n : nat) (g : nat -> A) :
  map f (tab n g) = tab n (fun i => f (g i)).
Proof. unfold tab. now rewrite map_map. Qed.

Lemma repeat_tab {A} (x : A) (n : nat) : repeat x n = tab n (fun _ => x).
Proof.
  induction n as [|n IH]; [reflexivity|].
  rewrite tab_S. cbn [repeat]. now rewrite IH.
Qed.

Lemma zipWith_tab {A B C} (f : A -> B -> C) (n : nat) g1 g2 :
  zipWith f (tab n g1) (tab n g2) = tab n (fun i => f (g1 i) (g2 i)).
Proof.
  revert g1 g2. induction n as [|n IH]; intros g1 g2; [reflexivity|].
  rewrite !tab_S. unfold zipWith in *. cbn [combine map fst snd].
  now rewrite IH.
Qed.

Lemma Forall_tab {A} (Q : A -> Prop) (n : nat) (g : nat -> A) :
  (forall i, (i < n)%nat -> Q (g i)) -> Forall Q (tab n g).
Proof.
  intros Hg. apply Forall_forall. intros x Hx.
  unfold tab in Hx. apply in_map_iff in Hx as (i & <- & Hi).
  apply in_seq in Hi. apply Hg. lia.
Qed.

Lemma tab_snoc {A} (n : nat) (g : nat -> A) : tab (S n) g = tab n g ++ [g n].
Proof. unfold tab. now rewrite seq_S, map_app. Qed.

(** ** Arrays in entry form *)

Lemma shape2_tab2 (N D : nat) (M : mat) :
  shape2 N D M -> M = tab2 N D (get2 M).
Proof.
  intros [HN HD]. subst N. unfold tab2.
  rewrite (tab_of_list [] M) at 1. apply tab_ext. intros i Hi.
  assert (HL : length (nth i M []) = D).
  { rewrite Forall_forall in HD. apply HD, nth_In, Hi. }
  rewrite (tab_of_list 0 (nth i M [])) at 1. now rewrite HL.
Qed.

Lemma tab2_shape2 (N D : nat) (f : nat -> nat -> R) : shape2 N D (tab2 N D f).
Proof.
  split; [apply tab_length|].
  apply Forall_tab. intros i _. apply tab_length.
Qed.

Lemma get2_tab2 (N D : nat) (f : nat -> nat -> R) (i k : nat) :
  (i < N)%nat -> (k < D)%nat -> get2 (tab2 N D f) i k = f i k.
Proof.
  intros Hi Hk. unfold get2, tab2. now rewrite tab_nth, tab_nth.
Qed.

Lemma get3_tab3 (N M D : nat) f (i j k : nat) :
  (i < N)%nat -> (j < M)%nat -> (k < D)%nat ->
  get3 (tab3 N M D f) i j k = f i j k.
Proof.
  intros Hi Hj Hk. unfold get3, tab3, tab2.
  now rewrite tab_nth, tab_nth, tab_nth.
Qed.

Lemma tab2_ext {A} (N D : nat) (f f' : nat -> nat -> A) :
  (forall i k, (i < N)%nat -> (k < D)%nat -> f i k = f' i k) ->
  tab2 N D f = tab2 N D f'.
Proof.
  intros Hf. apply tab_ext. intros i Hi. apply tab_ext. intros k Hk.
  now apply Hf.
Qed.

Lemma tab3_ext (N M D : nat) f f' :
  (forall i j k, (i < N)%nat -> (j < M)%nat -> (k < D)%nat ->
     f i j k = f' i j k) ->
  tab3 N M D f = tab3 N M D f'.
Proof.
  intros Hf. apply tab2_ext. intros i j Hi Hj. apply tab_ext. intros k Hk.
  now apply Hf.
Qed.

Lemma zipWith2_tab2 {A B C} (f : A -> B -> C) (N D : nat) a b :
  zipWith (zipWith f) (tab2 N D a) (tab2 N D b)
  = tab2 N D (fun i k => f (a i k) (b i k)).
Proof.
  unfold tab2. rewrite zipWith_tab. apply tab_ext. intros i _.
  apply zipWith_tab.
Qed.

Lemma map2_tab2 {A B} (f : A -> B) (N D : nat) a :
  map (map f) (tab2 N D a) = tab2 N D (fun i k => f (a i k)).
Proof.
  unfold tab2. rewrite map_tab. apply tab_ext. intros i _. apply map_tab.
Qed.

Lemma madd_tab2 (N D : nat) a b :
  madd (tab2 N D a) (tab2 N D b) = tab2 N D (fun i k => a i k + b i k).
Proof. apply (zipWith2_tab2 Rplus). Qed.

Lemma mmul_tab2 (N D : nat) a b :
  mmul (tab2 N D a) (tab2 N D b) = tab2 N D (fun i k => a i k * b i k).
Proof. apply (zipWith2_tab2 Rmult). Qed.

Lemma mdiv_tab2 (N D : nat) a b :
  mdiv (tab2 N D a) (tab2 N D b) = tab2 N D (fun i k => a i k / b i k).
Proof. apply (zipWith2_tab2 Rdiv). Qed.

Lemma mscale_tab2 (c : R) (N D : nat) a :
  mscale c (tab2 N D a) = tab2 N D (fun i k => c * a i k).
Proof. apply (map2_tab2 (Rmult c)). Qed.

Lemma transpose_tab2 {A} (d : A) (N : nat) (a : nat -> nat -> A) :
  transpose d (tab2 N N a) = tab2 N N (fun j i => a i j).
Proof.
  unfold transpose, tab2. rewrite tab_length.
  assert (HL : length (hd [] (tab N (fun i => tab N (a i)))) = N).
  { destruct N as [|n]; [reflexivity|]. rewrite tab_S. apply tab_length. }
  rewrite HL. apply tab_ext. intros j Hj. apply tab_ext. intros i Hi.
  now rewrite tab_nth, tab_nth.
Qed.

Lemma ones_tab2 (n : nat) : ones n = tab2 n n (fun _ _ => 1).
Proof.
  unfold ones, tab2. rewrite repeat_tab. apply tab_ext. intros i _.
  apply repeat_tab.
Qed.

Lemma broadcast_to_length {A} (n : nat) (l : list A) :
  length l = n -> broadcast_to n l = l.
Proof.
  intros <-. destruct l as [|x [|y l]]; reflexivity.
Qed.

(** ** Sums *)

Lemma rsum_ext (n : nat) (f g : nat -> R) :
  (forall i, (i < n)%nat -> f i = g i) -> rsum n f = rsum n g.
Proof.
  induction n as [|n IH]; intros Hfg; [reflexivity|].
  cbn [rsum]. rewrite IH, (Hfg n) by auto with arith. reflexivity.
Qed.

Lemma rsum_zero (n : nat) : rsum n (fun _ => 0) = 0.
Proof. induction n as [|n IH]; cbn [rsum]; [reflexivity | rewrite IH; lra]. Qed.

Lemma rsum_plus (n : nat) (f g : nat -> R) :
  rsum n (fun i => f i + g i) = rsum n f + rsum n g.
Proof. induction n as [|n IH]; cbn [rsum]; [lra | rewrite IH; lra]. Qed.

Lemma rsum_scale (c : R) (n : nat) (f : nat -> R) :
  rsum n (fun i => c * f i) = c * rsum n f.
Proof. induction n as [|n IH]; cbn [rsum]; [lra | rewrite IH; lra]. Qed.

Lemma rsum_opp (n : nat) (f : nat -> R) :
  rsum n (fun i => - f i) = - rsum n f.
Proof. induction n as [|n IH]; cbn [rsum]; [lra | rewrite IH; lra]. Qed.

Lemma rsum_exchange (n m : nat) (f : nat -> nat -> R) :
  rsum n (fun i => rsum m (fun j => f i j))
  = rsum m (fun j => rsum n (fun i => f i j)).
Proof.
  induction n as [|n IH]; cbn [rsum].
  - now rewrite rsum_zero.
  - now rewrite IH, rsum_plus.
Qed.

(** The entries of an antisymmetric square array add up to zero. *)
Lemma rsum_antisym (n : nat) (f : nat -> nat -> R) :
  (forall i j, (i < n)%nat -> (j < n)%nat -> f i j = - f j i) ->
  rsum n (fun i => rsum n (fun j => f i j)) = 0.
Proof.
  intros Hf.
  assert (E : rsum n (fun i => rsum n (fun j => f i j))
              = - rsum n (fun i => rsum n (fun j => f i j))).
  { rewrite rsum_exchange at 1. rewrite <- rsum_opp.
    apply rsum_ext. intros j Hj. rewrite <- rsum_opp.
    apply rsum_ext. intros i Hi. now apply Hf. }
  lra.
Qed.

Lemma fold_left_Rplus_tab (n : nat) (f : nat -> R) :
  fold_left Rplus (tab n f) 0 = rsum n f.
Proof.
  induction n as [|n IH]; [reflexivity|].
  now rewrite tab_snoc, fold_left_app, IH.
Qed.

Lemma dot_tab (D : nat) (f g : nat -> R) :
  dot (tab D f) (tab D g) = rsum D (fun k => f k * g k).
Proof. unfold dot. now rewrite zipWith_tab, fold_left_Rplus_tab. Qed.

Lemma fold_left_madd_tab (n M D : nat) (t : nat -> nat -> nat -> R) acc :
  fold_left madd (tab n (fun i => tab2 M D (t i))) (tab2 M D acc)
  = tab2 M D (fun j k => acc j k + rsum n (fun i => t i j k)).
Proof.
  induction n as [|n IH].
  - cbn. apply tab2_ext. intros; lra.
  - rewrite tab_snoc, fold_left_app. cbn [fold_left].
    etransitivity; [apply (f_equal (fun x => madd x _)); exact IH|].
    rewrite madd_tab2. apply tab2_ext. intros j k _ _. cbn [rsum]. lra.
Qed.

Lemma py_sum_tab3 (N M D : nat) (t : nat -> nat -> nat -> R) :
  (0 < N)%nat ->
  py_sum (tab3 N M D t) = Ok (tab2 M D (fun j k => rsum N (fun i => t i j k))).
Proof.
  intros HN. destruct N as [|n]; [lia|].
  unfold tab3, tab2 at 1. rewrite tab_S. cbn [py_sum]. f_equal.
  change (tab M (fun j => tab D (t 0%nat j))) with (tab2 M D (t 0%nat)).
  rewrite map2_tab2.
  change (tab n (fun i => tab M (fun j => tab D (t (S i) j))))
    with (tab n (fun i => tab2 M D (t (S i)))).
  rewrite fold_left_madd_tab. apply tab2_ext. intros j k _ _.
  assert (E : forall m, rsum (S m) (fun i => t i j k)
                        = rsum m (fun i => t (S i) j k) + (0 + t 0%nat j k)).
  { induction m as [|m IHm]; [cbn; lra|].
    change (rsum (S (S m)) (fun i => t i j k))
      with (rsum (S m) (fun i => t i j k) + t (S m) j k).
    rewrite IHm. cbn [rsum]. lra. }
  rewrite E. lra.
Qed.

(** ** [einsum] in entry form *)

Lemma einsum_ij_ijk_tab (N D : nat) (a : nat -> nat -> R) t :
  einsum_ij_ijk (tab2 N N a) (tab3 N N D t)
  = tab3 N N D (fun i j k => a i j * t i j k).
Proof.
  unfold einsum_ij_ijk, tab3, tab2. rewrite zipWith_tab.
  apply tab_ext. intros i _.
  rewrite tab_length, broadcast_to_length by apply tab_length.
  rewrite zipWith_tab. apply tab_ext. intros j _. apply map_tab.
Qed.

Lemma einsum_ij_ijk_broadcast (N D : nat) (a : nat -> nat -> R) r :
  einsum_ij_ijk (tab2 N N a) (map (fun Ri => [Ri]) (tab2 N D r))
  = tab3 N N D (fun i j k => a i j * r i k).
Proof.
  unfold einsum_ij_ijk, tab3, tab2. rewrite map_tab, zipWith_tab.
  apply tab_ext. intros i _.
  rewrite tab_length. cbn [broadcast_to]. rewrite repeat_tab, zipWith_tab.
  apply tab_ext. intros j _. apply map_tab.
Qed.

Lemma einsum_ijk_ij_tab (N D : nat) (s t : nat -> nat -> nat -> R) :
  einsum_ijk_ij (tab3 N N D s) (tab3 N N D t)
  = tab2 N N (fun i j => rsum D (fun k => s i j k * t i j k)).
Proof.
  unfold einsum_ijk_ij, tab3. rewrite zipWith2_tab2.
  apply tab2_ext. intros i j _ _. apply dot_tab.
Qed.

Lemma tsub_tab3 (N D : nat) (s t : nat -> nat -> nat -> R) :
  tsub (tab3 N N D s) (tab3 N N D t)
  = tab3 N N D (fun i j k => s i j k - t i j k).
Proof.
  unfold tsub, tab3, tab2. rewrite zipWith_tab. apply tab_ext. intros i _.
  unfold msub. rewrite zipWith_tab. apply tab_ext. intros j _.
  apply zipWith_tab.
Qed.

Lemma transpose_tab3 (N D : nat) (t : nat -> nat -> nat -> R) :
  transpose [] (tab3 N N D t) = tab3 N N D (fun j i k => t i j k).
Proof. unfold tab3. now rewrite transpose_tab2. Qed.

Lemma tscale_tab3 (c : R) (N D : nat) (t : nat -> nat -> nat -> R) :
  tscale c (tab3 N N D t) = tab3 N N D (fun i j k => c * t i j k).
Proof.
  unfold tscale, tab3, tab2. rewrite map_tab. apply tab_ext. intros i _.
  unfold mscale. rewrite map_tab. apply tab_ext. intros j _. apply map_tab.
Qed.

(** ** Construction *)

Lemma mapM_ok_map {A B} (f : A -> result B) (g : A -> B) (l : list A) :
  (forall x, In x l -> f x = Ok (g x)) -> mapM f l = Ok (map g l).
Proof.
  induction l as [|x l IH]; intros Hf; [reflexivity|].
  cbn [mapM map]. rewrite (Hf x) by now left. cbn [bind].
  rewrite IH by (intros y Hy; apply Hf; now right). reflexivity.
Qed.

Lemma mapM_raise {A B} (f : A -> result B) (e : exn) (l : list A) :
  (forall x, In x l -> f x = Raise e \/ exists y, f x = Ok y) ->
  (exists x, In x l /\ f x = Raise e) ->
  mapM f l = Raise e.
Proof.
  induction l as [|x l IH]; intros Hall (z & Hz & Hfz); [destruct Hz|].
  cbn [mapM]. destruct (Hall x (or_introl eq_refl)) as [E | [y E]];
    rewrite E; cbn [bind]; [reflexivity|].
  destruct Hz as [-> | Hz]; [congruence|].
  rewrite IH; [reflexivity | | now exists z].
  intros w Hw. apply Hall. now right.
Qed.

Lemma py_div_ok (x y : R) : y <> 0 -> py_div x y = Ok (x / y).
Proof. intros Hy. unfold py_div. now destruct (Req_dec_T y 0). Qed.

Lemma py_div_zero (x : R) : py_div x 0 = Raise ZeroDivisionError.
Proof. unfold py_div. now destruct (Req_dec_T 0 0). Qed.

Lemma inv_row_ok (D : nat) (m : R) :
  D = 0%nat \/ m <> 0 ->
  mapM (fun _ : nat => py_div 1 m) (seq 0 D) = Ok (tab D (fun _ => 1 / m)).
Proof.
  intros [-> | Hm]; [reflexivity|].
  unfold tab. apply mapM_ok_map. intros _ _. now apply py_div_ok.
Qed.

Lemma inv_row_raise (D : nat) :
  (0 < D)%nat ->
  mapM (fun _ : nat => py_div 1 0) (seq 0 D) = Raise ZeroDivisionError.
Proof.
  intros HD. destruct D as [|d]; [lia|].
  cbn [seq mapM]. now rewrite py_div_zero.
Qed.

Lemma init_ok (massas : list R) (h G : R) (D : nat) :
  D = 0%nat \/ ~ In 0 massas ->
  init massas h G D = Ok (built massas h G D).
Proof.
  intros Hm. unfold init, guardar_massas.
  rewrite (mapM_ok_map _ (fun mi => tab D (fun _ => 1 / mi))).
  - cbn [bind]. unfold built. do 2 f_equal.
    + rewrite (tab_of_list 0 massas) at 1. rewrite map_tab. reflexivity.
    + change (tab (length massas)
                (fun i => tab (length massas)
                   (fun j => if Nat.eqb j i then 0 else nth j massas 0)))
        with (tab2 (length massas) (length massas)
                (fun i j => if Nat.eqb j i then 0 else nth j massas 0)).
      rewrite transpose_tab2, mmul_tab2. reflexivity.
  - intros mi Hmi. apply inv_row_ok.
    destruct Hm as [HD | Hm]; [now left | right].
    intros ->. now apply Hm.
Qed.

Lemma init_raise (massas : list R) (h G : R) (D : nat) :
  (0 < D)%nat -> In 0 massas ->
  init massas h G D = Raise ZeroDivisionError.
Proof.
  intros HD H0. unfold init, guardar_massas.
  rewrite (mapM_raise _ ZeroDivisionError); [reflexivity | |].
  - intros mi _. destruct (Req_dec_T mi 0) as [-> | Hmi].
    + left. now apply inv_row_raise.
    + right. eexists. apply inv_row_ok. now right.
  - exists 0. split; [assumption | now apply inv_row_raise].
Qed.

Lemma prodM_entry_spec (massas : list R) (i j : nat) :
  prodM_entry massas i j
  = if Nat.eqb i j then 0 else nth i massas 0 * nth j massas 0.
Proof.
  unfold prodM_entry. rewrite (Nat.eqb_sym j i).
  destruct (Nat.eqb i j); lra.
Qed.

(** ** [forcas] and [runge_kutta4] in entry form *)

Lemma forcas_tab (rk : RK4) (N D : nat) (pm r : nat -> nat -> R) :
  (0 < N)%nat ->
  vetorUm rk = ones N -> identidade rk = identity N ->
  prodM rk = tab2 N N pm ->
  forcas rk (tab2 N D r)
  = Ok (tab3 N N D (F_entry (G rk) pm D r),
        tab2 N D (fun j k => rsum N (fun i => F_entry (G rk) pm D r i j k))).
Proof.
  intros HN Hum Hid Hpm. unfold forcas, forcas_norma, forcas_difX.
  rewrite Hum, Hid, Hpm, ones_tab2.
  rewrite einsum_ij_ijk_broadcast, transpose_tab3, tsub_tab3.
  rewrite einsum_ijk_ij_tab, map2_tab2.
  change (identity N)
    with (tab2 N N (fun i j => if Nat.eqb i j then 1 else 0)).
  rewrite madd_tab2, mdiv_tab2, einsum_ij_ijk_tab, tscale_tab3.
  fold (F_entry (G rk) pm D r).
  rewrite py_sum_tab3 by assumption. reflexivity.
Qed.

Lemma runge_kutta4_tab (rk : RK4) (N D : nat) (iv r p fs : nat -> nat -> R) :
  massasDuplicadasInvertidas rk = tab2 N D iv ->
  runge_kutta4 rk (tab2 N D r) (tab2 N D p) (tab2 N D fs)
  = (tab2 N D (novaR_entry (h rk) iv r p),
     tab2 N D (fun i k => p i k + h rk * fs i k)).
Proof.
  intros Hiv. unfold runge_kutta4. rewrite Hiv.
  rewrite !mmul_tab2, !mscale_tab2, !madd_tab2, mscale_tab2, madd_tab2.
  reflexivity.
Qed.

Lemma init_inv (massas : list R) (h G : R) (D : nat) (rk : RK4) :
  init massas h G D = Ok rk -> rk = built massas h G D.
Proof.
  intros Hrk.
  destruct (Nat.eq_dec D 0) as [HD | HD].
  - rewrite init_ok in Hrk by now left. congruence.
  - destruct (in_dec Req_dec_T 0 massas) as [H0 | H0].
    + rewrite init_raise in Hrk by (assumption || lia). discriminate.
    + rewrite init_ok in Hrk by now right. congruence.
Qed.

Lemma massas_validas_nonzero (massas : list R) :
  massas_validas massas -> ~ In 0 massas.
Proof.
  intros [_ Hpos] H0. rewrite Forall_forall in Hpos.
  apply Hpos in H0. lra.
Qed.

Lemma massas_validas_length (massas : list R) :
  massas_validas massas -> (0 < length massas)%nat.
Proof. intros [Hne _]. destruct massas; [congruence | cbn; lia]. Qed.

(** ** The force entries *)

Lemma pow32_0 : pow32 0 = 0.
Proof. unfold pow32. lra. Qed.

(** [pow32] is the power 3/2 of the real numbers wherever that power is
    defined by [exp] and [ln]. *)
Lemma pow32_Rpower (x : R) : 0 < x -> pow32 x = Rpower x (3 / 2).
Proof.
  intros Hx. unfold pow32.
  replace (3 / 2) with (1 + / 2) by lra.
  now rewrite Rpower_plus, Rpower_1, Rpower_sqrt.
Qed.

Lemma pow32_nonneg (x : R) : 0 <= x -> 0 <= pow32 x.
Proof.
  intros Hx. unfold pow32.
  apply Rmult_le_pos; [assumption | apply sqrt_pos].
Qed.

Lemma F_entry_antisym (g : R) pm (D : nat) r (i j k : nat) :
  pm i j = pm j i ->
  F_entry g pm D r i j k = - F_entry g pm D r j i k.
Proof.
  intros Hpm. unfold F_entry. rewrite Hpm, (Nat.eqb_sym j i).
  rewrite (rsum_ext D
             (fun k' => (1 * r j k' - 1 * r i k') * (1 * r j k' - 1 * r i k'))
             (fun k' => (1 * r i k' - 1 * r j k') * (1 * r i k' - 1 * r j k')))
    by (intros; ring).
  unfold Rdiv. ring.
Qed.

Lemma F_entry_diag (g : R) pm (D : nat) r (i k : nat) :
  F_entry g pm D r i i k = 0.
Proof. unfold F_entry, Rdiv. ring. Qed.

Lemma F_entry_denom (g : R) pm (N D : nat) r (i j k : nat) :
  (i < N)%nat -> (j < N)%nat ->
  F_entry g pm D r i j k
  = g * pm i j * (r i k - r j k) / denom D (tab2 N D r) i j.
Proof.
  intros Hi Hj. unfold F_entry, denom.
  rewrite (rsum_ext D
             (fun k' => (get2 (tab2 N D r) i k' - get2 (tab2 N D r) j k')
                        * (get2 (tab2 N D r) i k' - get2 (tab2 N D r) j k'))
             (fun k' => (1 * r i k' - 1 * r j k') * (1 * r i k' - 1 * r j k'))).
  - unfold Rdiv. ring.
  - intros k' Hk'. rewrite !get2_tab2 by assumption. ring.
Qed.

Lemma denom_diag (D : nat) (R : mat) (i : nat) : denom D R i i = 1.
Proof.
  unfold denom. rewrite Nat.eqb_refl.
  rewrite (rsum_ext D _ (fun _ => 0)) by (intros; ring).
  rewrite rsum_zero, pow32_0. lra.
Qed.

Lemma prodM_entry_sym (massas : list real) (i j : nat) :
  prodM_entry massas i j = prodM_entry massas j i.
Proof.
  rewrite !prodM_entry_spec, (Nat.eqb_sym j i).
  destruct (Nat.eqb i j); ring.
Qed.

(** [forcas] on an integrator that [init] returned. *)
Lemma forcas_built (massas : list real) (h G : real) (Dm D : nat) (R : mat) :
  (0 < length massas)%nat ->
  shape2 (length massas) D R ->
  forcas (built massas h G Dm) R
  = Ok (tab3 (length massas) (length massas) D
          (F_entry G (prodM_entry massas) D (get2 R)),
        tab2 (length massas) D
          (fun j k => rsum (length massas)
             (fun i => F_entry G (prodM_entry massas) D (get2 R) i j k))).
Proof.
  intros HN HR. rewrite (shape2_tab2 _ _ R HR) at 1.
  now rewrite (forcas_tab _ (length massas) D (prodM_entry massas)).
Qed.

(** The net forces add up to zero over the particles. *)
Lemma net_force_zero (g : R) (massas : list R) (N D : nat) r (k : nat) :
  rsum N (fun j => rsum N (fun i => F_entry g (prodM_entry massas) D r i j k))
  = 0.
Proof.
  apply (rsum_antisym N
           (fun j i => F_entry g (prodM_entry massas) D r i j k)).
  intros j i _ _. apply F_entry_antisym, prodM_entry_sym.
Qed.

(** ** One pass of the loop, and the loop *)

Section Laco.

Variables (massas : list real) (h0 G0 : real) (D : nat).
Hypothesis HN : (0 < length massas)%nat.

Let N := length massas.
Let rk := built massas h0 G0 D.

Lemma passo_momentum (R P : mat) :
  shape2 N D R -> shape2 N D P ->
  exists F FSomas,
    forcas rk R = Ok (F, FSomas)
    /\ shape2 N D FSomas
    /\ shape2 N D (fst (runge_kutta4 rk R P FSomas))
    /\ shape2 N D (snd (runge_kutta4 rk R P FSomas))
    /\ (forall k, (k < D)%nat -> total N FSomas k = 0)
    /\ (forall k, (k < D)%nat ->
          total N (snd (runge_kutta4 rk R P FSomas)) k = total N P k).
Proof.
  intros HR HP.
  pose proof (shape2_tab2 _ _ R HR) as ER.
  pose proof (shape2_tab2 _ _ P HP) as EP.
  set (r := get2 R) in *. set (p := get2 P) in *. clearbody r p. subst R P.
  unfold rk, N in *.
  rewrite (forcas_tab _ (length massas) D (prodM_entry massas))
    by (assumption || reflexivity).
  do 2 eexists. split; [reflexivity|].
  rewrite (runge_kutta4_tab _ (length massas) D
             (fun i _ => 1 / nth i massas 0)) by reflexivity.
  cbn [fst snd built h G].
  split_all; try apply tab2_shape2.
  - intros k Hk. unfold total.
    rewrite (rsum_ext _ _
               (fun j => rsum (length massas)
                  (fun i => F_entry G0 (prodM_entry massas) D r i j k)))
      by (intros j Hj; now rewrite get2_tab2).
    apply net_force_zero.
  - intros k Hk. unfold total.
    rewrite (rsum_ext _ _
               (fun i => p i k
                  + h0 * rsum (length massas)
                      (fun i' => F_entry G0 (prodM_entry massas) D r i' i k)))
      by (intros i Hi; now rewrite get2_tab2).
    rewrite rsum_plus, rsum_scale, net_force_zero.
    rewrite (rsum_ext _ (fun i => get2 _ i k) (fun i => p i k))
      by (intros i Hi; now rewrite get2_tab2).
    lra.
Qed.

Lemma laco_momentum (n : nat) :
  forall (R P : mat) (F0 : option tensor),
    shape2 N D R -> shape2 N D P ->
    exists R' P' F',
      laco rk n R P F0 = Ok (R', P', F')
      /\ shape2 N D R' /\ shape2 N D P'
      /\ (forall k, (k < D)%nat -> total N P' k = total N P k)
      /\ (n = 0%nat -> F' = F0)
      /\ ((0 < n)%nat -> exists F, F' = Some F).
Proof.
  induction n as [|n IH]; intros R P F0 HR HP.
  - exists R, P, F0. cbn [laco]. split_all; auto.
    intros Hn. exfalso. lia.
  - destruct (passo_momentum R P HR HP)
      as (F & FS & HF & _ & HR1 & HP1 & _ & Htot).
    cbn [laco]. rewrite HF. cbn [bind].
    destruct (runge_kutta4 rk R P FS) as [R1 P1] eqn:E. cbn [fst snd] in *.
    destruct (IH R1 P1 (Some F) HR1 HP1)
      as (R' & P' & F' & HL & HR' & HP' & Htot' & _ & HF').
    exists R', P', F'. split_all; auto.
    + intros k Hk. now rewrite Htot', Htot.
    + discriminate.
    + intros _. destruct n as [|n'].
      * cbn [laco] in HL. injection HL as _ _ <-. now exists F.
      * apply HF'. lia.
Qed.

End Laco.

(** ** The two-body scenario *)

Example literals : 0.25 = 1 / 4 /\ 0.01 = 1 / 100 /\ 0.05 = 1 / 20.
Proof. lra. Qed.

Lemma pow32_4 : pow32 4 = 8.
Proof.
  assert (E : sqrt 4 = 2).
  { replace 4 with (2 * 2) by lra. apply sqrt_square. lra. }
  unfold pow32. rewrite E. lra.
Qed.

Lemma init_dois : init massas_dois 0.01 1 1 = Ok rk_dois.
Proof.
  apply init_ok. right. intros [H | [H | []]]; lra.
Qed.

Lemma shape2_R_dois : shape2 2 1 R_dois.
Proof. split; [reflexivity|]. repeat constructor. Qed.

Lemma shape2_P_dois : shape2 2 1 P_dois.
Proof. split; [reflexivity|]. repeat constructor. Qed.

Lemma F_dois_01 :
  F_entry 1 (prodM_entry [1; 1]) 1 (get2 R_dois) 0 1 0 = - (1 / 4).
Proof.
  unfold F_entry, prodM_entry.
  cbn [Nat.eqb nth get2 R_dois rsum].
  replace (0 + (1 * -1 - 1 * 1) * (1 * -1 - 1 * 1)) with 4 by lra.
  rewrite pow32_4. lra.
Qed.

Lemma F_dois_10 :
  F_entry 1 (prodM_entry [1; 1]) 1 (get2 R_dois) 1 0 0 = 1 / 4.
Proof.
  unfold F_entry, prodM_entry.
  cbn [Nat.eqb nth get2 R_dois rsum].
  replace (0 + (1 * 1 - 1 * -1) * (1 * 1 - 1 * -1)) with 4 by lra.
  rewrite pow32_4. lra.
Qed.

Lemma forcas_dois :
  forcas rk_dois R_dois
  = Ok ([[[0]; [-(1/4)]]; [[1/4]; [0]]], [[1/4]; [-(1/4)]]).
Proof.
  unfold rk_dois.
  rewrite (forcas_built massas_dois _ _ 1 1 R_dois)
    by (apply shape2_R_dois || (cbn; lia)).
  cbv [tab3 tab2 tab seq map length massas_dois rsum].
  rewrite !F_entry_diag, F_dois_01, F_dois_10.
  repeat (f_equal; try lra).
Qed.

Lemma runge_kutta4_dois :
  runge_kutta4 rk_dois R_dois P_dois [[1/4]; [-(1/4)]]
  = ([[-1]; [1]], [[1/400]; [-(1/400)]]).
Proof.
  cbv [runge_kutta4 rk_dois built massasDuplicadasInvertidas h massas_dois
       R_dois P_dois tab2 tab seq map length nth
       mmul madd mscale vadd zipWith combine fst snd].
  repeat (f_equal; try lra).
Qed.

(** ** What [forcas] returns on an integrator that [init] returned *)

Lemma tab3_shape3 (N D : nat) (f : nat -> nat -> nat -> R) :
  shape3 N D (tab3 N N D f).
Proof.
  split; [apply tab_length|].
  apply Forall_tab. intros i _. apply tab2_shape2.
Qed.

Lemma forcas_spec (massas : list real) (h0 G0 : real) (Dm : nat) (rk : RK4)
    (D : nat) (R : mat) :
  init massas h0 G0 Dm = Ok rk ->
  massas <> [] ->
  shape2 (length massas) D R ->
  exists F FSomas,
    forcas rk R = Ok (F, FSomas)
    /\ shape3 (length massas) D F
    /\ shape2 (length massas) D FSomas
    /\ (forall i j k,
          (i < length massas)%nat -> (j < length massas)%nat -> (k < D)%nat ->
          get3 F i j k = F_entry G0 (prodM_entry massas) D (get2 R) i j k)
    /\ (forall j k,
          (j < length massas)%nat -> (k < D)%nat ->
          get2 FSomas j k = rsum (length massas) (fun i => get3 F i j k)).
Proof.
  intros Hrk Hne HR. apply init_inv in Hrk. subst rk.
  assert (HN : (0 < length massas)%nat)
    by (destruct massas; [congruence | cbn; lia]).
  rewrite (forcas_built massas h0 G0 Dm D R HN HR).
  do 2 eexists. split; [reflexivity|]. split_all.
  - apply tab3_shape3.
  - apply tab2_shape2.
  - intros i j k Hi Hj Hk. now rewrite get3_tab3.
  - intros j k Hj Hk. rewrite get2_tab2 by assumption.
    apply rsum_ext. intros i Hi. now rewrite get3_tab3.
Qed.

Lemma prodM_built (massas : list real) (h0 G0 : real) (Dm : nat) (i j : nat) :
  (i < length massas)%nat -> (j < length massas)%nat ->
  get2 (prodM (built massas h0 G0 Dm)) i j = prodM_entry massas i j.
Proof. intros Hi Hj. cbn [built prodM]. now rewrite get2_tab2. Qed.

Lemma F_entry_get2 (g : real) pm (N D : nat) (R : mat) (i j k : nat) :
  shape2 N D R -> (i < N)%nat -> (j < N)%nat ->
  F_entry g pm D (get2 R) i j k
  = g * pm i j * (get2 R i k - get2 R j k) / denom D R i j.
Proof.
  intros HR Hi Hj. rewrite (F_entry_denom g pm N D) by assumption.
  now rewrite <- (shape2_tab2 N D R HR).
Qed.

(** * The claims of the specification *)

(** ** Construction *)

(** C1, as stated, fails: the mass list [1.0, -2.0, 3.0] contains a mass
    that is not positive, and construction (with the default step, constant
    and dimension) returns an integrator instead of failing. *)
Lemma C1_negative_mass_is_accepted :
  (exists m, In m [1; -2; 3] /\ m <= 0)
  /\ ~ fails (init [1; -2; 3] 0.05 1 3).
Proof.
  split.
  - exists (-2). split; [cbn; auto | lra].
  - intros [e He]. rewrite init_ok in He; [discriminate|].
    right. intros [H | [H | [H | []]]]; lra.
Qed.

(** C1, amended: construction checks nothing about the masses.  It fails
    exactly when the dimension is at least 1 and some mass is zero, and then
    with the ZeroDivisionError of [1/mi]; every other mass list, negative
    masses and the empty list included, gives an integrator. *)
Theorem C1_init_fails_only_on_zero_mass (massas : list real) (h0 G0 : real)
    (D : nat) :
  ((0 < D)%nat /\ In 0 massas <->
     init massas h0 G0 D = Raise ZeroDivisionError)
  /\ (~ ((0 < D)%nat /\ In 0 massas) <->
        init massas h0 G0 D = Ok (built massas h0 G0 D)).
Proof.
  destruct (Nat.eq_dec D 0) as [HD | HD];
    [| destruct (in_dec Req_dec_T 0 massas) as [H0 | H0]].
  - rewrite (init_ok massas h0 G0 D) by now left.
    split; split; try discriminate; try reflexivity.
    + intros [HD' _]. lia.
    + intros _ [HD' _]. lia.
  - rewrite (init_raise massas h0 G0 D) by (assumption || lia).
    split; split; try discriminate; try reflexivity.
    + intros _. split; [lia | assumption].
    + intros Hn. exfalso. apply Hn. split; [lia | assumption].
  - rewrite (init_ok massas h0 G0 D) by now right.
    split; split; try discriminate; try reflexivity.
    + intros [_ H0']. contradiction.
    + intros _ [_ H0']. contradiction.
Qed.

(** C9: on a valid mass list construction returns an integrator whose
    [prodM] is an N x N matrix with [masses[i] * masses[j]] off the diagonal
    and 0 on it; the matrix is symmetric. *)
Theorem C9_prodM_entries (massas : list real) (h0 G0 : real) (D : nat) :
  massas_validas massas ->
  exists rk,
    init massas h0 G0 D = Ok rk
    /\ shape2 (length massas) (length massas) (prodM rk)
    /\ (forall i j, (i < length massas)%nat -> (j < length massas)%nat ->
          get2 (prodM rk) i j
          = if Nat.eqb i j then 0 else nth i massas 0 * nth j massas 0)
    /\ (forall i, (i < length massas)%nat -> get2 (prodM rk) i i = 0)
    /\ (forall i j, (i < length massas)%nat -> (j < length massas)%nat ->
          get2 (prodM rk) i j = get2 (prodM rk) j i).
Proof.
  intros Hm. exists (built massas h0 G0 D). split_all.
  - apply init_ok. right. now apply massas_validas_nonzero.
  - apply tab2_shape2.
  - intros i j Hi Hj. rewrite prodM_built by assumption.
    apply prodM_entry_spec.
  - intros i Hi. rewrite prodM_built by assumption.
    rewrite prodM_entry_spec, Nat.eqb_refl. reflexivity.
  - intros i j Hi Hj. rewrite !prodM_built by assumption.
    apply prodM_entry_sym.
Qed.

Lemma massas_dois_validas : massas_validas massas_dois.
Proof.
  split; [discriminate|]. repeat constructor; lra.
Qed.

Lemma C9_prodM_entries_witness :
  massas_validas massas_dois
  /\ exists rk,
       init massas_dois 0.01 1 1 = Ok rk
       /\ shape2 2 2 (prodM rk)
       /\ (forall i j, (i < 2)%nat -> (j < 2)%nat ->
             get2 (prodM rk) i j
             = if Nat.eqb i j then 0 else nth i massas_dois 0 * nth j massas_dois 0)
       /\ (forall i, (i < 2)%nat -> get2 (prodM rk) i i = 0)
       /\ (forall i j, (i < 2)%nat -> (j < 2)%nat ->
             get2 (prodM rk) i j = get2 (prodM rk) j i).
Proof.
  split; [exact massas_dois_validas|].
  exact (C9_prodM_entries massas_dois 0.01 1 1 massas_dois_validas).
Defined.

(** ** The loop *)

(** C2 fails on the code: with [n = 0] the loop body never runs, the name
    [F] of the [return] statement was never assigned, and the call raises
    instead of returning its inputs. *)
Theorem C2_zero_steps_raises (rk : RK4) (R P : mat) (E : real) :
  aplicarNVezes rk R P 0 E = Raise UnboundLocalError.
Proof. reflexivity. Qed.

(** C10: the fourth parameter [E] of [aplicarNVezes] has no effect on what
    the call returns or raises. *)
Theorem C10_E_is_ignored (rk : RK4) (R P : mat) (n : nat) (E E' : real) :
  aplicarNVezes rk R P n E = aplicarNVezes rk R P n E'.
Proof. reflexivity. Qed.

(** ** Forces *)

Lemma massas_dois_nonempty : massas_dois <> [].
Proof. discriminate. Qed.

(** C3, as stated, fails: in the two-body scenario the net force on
    particle 0 is 1/4 (towards particle 1), while the sum over the second
    index of the pairwise entries [F[0][j]] is -1/4. *)
Lemma C3_second_index_sum_differs :
  init massas_dois 0.01 1 1 = Ok rk_dois
  /\ exists F FSomas,
       forcas rk_dois R_dois = Ok (F, FSomas)
       /\ get2 FSomas 0 0 = 1 / 4
       /\ rsum 2 (fun j => get3 F 0 j 0) = - (1 / 4)
       /\ get2 FSomas 0 0 <> rsum 2 (fun j => get3 F 0 j 0).
Proof.
  split; [exact init_dois|].
  do 2 eexists. split; [exact forcas_dois|].
  cbn [get2 get3 nth rsum]. split_all; lra.
Qed.

(** ** The step *)

(** C8: [runge_kutta4] returns, entry by entry,
    [R + (h/6) * (6*k1 + 3*h*k1_1 + h^2*k1_2 + 0.25*h^3*k1_3)] and
    [P + h * FSomas], where [k1] is the momentum times the inverse mass and
    each further term is the previous one times the inverse mass again. *)
Theorem C8_step_formula (massas : list real) (h0 G0 : real) (D : nat)
    (rk : RK4) (R P FSomas : mat) :
  init massas h0 G0 D = Ok rk ->
  shape2 (length massas) D R ->
  shape2 (length massas) D P ->
  shape2 (length massas) D FSomas ->
  shape2 (length massas) D (fst (runge_kutta4 rk R P FSomas))
  /\ shape2 (length massas) D (snd (runge_kutta4 rk R P FSomas))
  /\ (forall i k, (i < length massas)%nat -> (k < D)%nat ->
        let iv := get2 (massasDuplicadasInvertidas rk) i k in
        let k1 := get2 P i k * iv in
        let k1_1 := k1 * iv in
        let k1_2 := k1_1 * iv in
        let k1_3 := k1_2 * iv in
        iv = 1 / nth i massas 0
        /\ get2 (fst (runge_kutta4 rk R P FSomas)) i k
           = get2 R i k
             + h rk / 6
               * (6 * k1 + 3 * h rk * k1_1 + h rk ^ 2 * k1_2
                  + 0.25 * h rk ^ 3 * k1_3)
        /\ get2 (snd (runge_kutta4 rk R P FSomas)) i k
           = get2 P i k + h rk * get2 FSomas i k).
Proof.
  intros Hrk HR HP HFS. apply init_inv in Hrk. subst rk.
  rewrite (shape2_tab2 _ _ R HR), (shape2_tab2 _ _ P HP),
    (shape2_tab2 _ _ FSomas HFS).
  rewrite (runge_kutta4_tab _ (length massas) D
             (fun i _ => 1 / nth i massas 0)) by reflexivity.
  cbn [fst snd built h massasDuplicadasInvertidas].
  split_all; try apply tab2_shape2.
  intros i k Hi Hk. cbv zeta. rewrite !get2_tab2 by assumption.
  unfold novaR_entry. split_all; reflexivity.
Qed.

Lemma C8_step_formula_witness :
  shape2 2 1 (fst (runge_kutta4 rk_dois R_dois P_dois [[1/4]; [-(1/4)]]))
  /\ shape2 2 1 (snd (runge_kutta4 rk_dois R_dois P_dois [[1/4]; [-(1/4)]]))
  /\ (forall i k, (i < 2)%nat -> (k < 1)%nat ->
        let iv := get2 (massasDuplicadasInvertidas rk_dois) i k in
        let k1 := get2 P_dois i k * iv in
        let k1_1 := k1 * iv in
        let k1_2 := k1_1 * iv in
        let k1_3 := k1_2 * iv in
        iv = 1 / nth i massas_dois 0
        /\ get2 (fst (runge_kutta4 rk_dois R_dois P_dois [[1/4]; [-(1/4)]])) i k
           = get2 R_dois i k
             + h rk_dois / 6
               * (6 * k1 + 3 * h rk_dois * k1_1 + h rk_dois ^ 2 * k1_2
                  + 0.25 * h rk_dois ^ 3 * k1_3)
        /\ get2 (snd (runge_kutta4 rk_dois R_dois P_dois [[1/4]; [-(1/4)]])) i k
           = get2 P_dois i k + h rk_dois * get2 [[1/4]; [-(1/4)]] i k).
Proof.
  apply (C8_step_formula massas_dois 0.01 1 1 rk_dois R_dois P_dois
           [[1/4]; [-(1/4)]] init_dois shape2_R_dois shape2_P_dois).
  split; [reflexivity|]. repeat constructor.
Defined.

(** ** The two-body scenario, one step *)

Lemma aplicarNVezes_dois (E : real) :
  aplicarNVezes rk_dois R_dois P_dois 1 E
  = Ok ([[-1]; [1]], [[1/400]; [-(1/400)]],
        [[[0]; [-(1/4)]]; [[1/4]; [0]]]).
Proof.
  unfold aplicarNVezes. cbn [laco]. rewrite forcas_dois. cbn [bind].
  rewrite runge_kutta4_dois. reflexivity.
Qed.

Lemma separacao_dois : separacao [[-1]; [1]] = 2.
Proof.
  unfold separacao. cbn [get2 nth].
  replace (1 - -1) with 2 by lra. apply Rabs_pos_eq. lra.
Qed.

(** C4, as stated, fails: after one step of the two-body scenario the two
    bodies are exactly as far apart as before, 2.0, not strictly closer. *)
Lemma C4_separation_not_smaller :
  init massas_dois 0.01 1 1 = Ok rk_dois
  /\ exists R' P' F,
       aplicarNVezes rk_dois R_dois P_dois 1 0 = Ok (R', P', F)
       /\ separacao R_dois = 2
       /\ ~ separacao R' < 2.
Proof.
  split; [exact init_dois|].
  do 3 eexists. split; [apply aplicarNVezes_dois|].
  split; [exact separacao_dois|].
  rewrite separacao_dois. lra.
Qed.

(** C4, amended: one step of the two-body scenario returns momenta 0.0025
    and -0.0025, equal in magnitude and opposite in sign, directed towards
    the other body; the positions it returns are the initial positions,
    because they are advanced with the momenta held before the step, which
    are zero: the separation is still 2.0. *)
Theorem C4_two_body_one_step (E : real) :
  init massas_dois 0.01 1 1 = Ok rk_dois
  /\ exists R' P' F,
       aplicarNVezes rk_dois R_dois P_dois 1 E = Ok (R', P', F)
       /\ get2 P' 0 0 = 1 / 400
       /\ get2 P' 1 0 = - get2 P' 0 0
       /\ R' = R_dois
       /\ separacao R' = 2.
Proof.
  split; [exact init_dois|].
  do 3 eexists. split; [apply aplicarNVezes_dois|].
  cbn [get2 nth]. split_all; try reflexivity.
  exact separacao_dois.
Qed.

(** * Further properties of the integrator *)

(** ** How calls of [aplicarNVezes] compose *)

Lemma laco_add (rk : RK4) (n m : nat) :
  forall (R P : mat) (F0 : option tensor),
    laco rk (n + m) R P F0
    = bind (laco rk n R P F0)
        (fun x => match x with (R1, P1, F1) => laco rk m R1 P1 F1 end).
Proof.
  induction n as [|n IH]; intros R P F0; [reflexivity|].
  cbn [Nat.add laco]. destruct (forcas rk R) as [[F FS] | e]; [|reflexivity].
  cbn [bind]. destruct (runge_kutta4 rk R P FS) as [R1 P1]. apply IH.
Qed.

(** Once the body has run, the value [F] had before the loop is gone. *)
Lemma laco_forgets_F (rk : RK4) (m : nat) (R P : mat) (F0 F0' : option tensor) :
  (0 < m)%nat -> laco rk m R P F0 = laco rk m R P F0'.
Proof. intros Hm. destruct m as [|m]; [lia | reflexivity]. Qed.

Lemma aplicarNVezes_Ok_laco (rk : RK4) (R P : mat) (n : nat) (E : real)
    (R1 P1 : mat) (F1 : tensor) :
  aplicarNVezes rk R P n E = Ok (R1, P1, F1) <->
  laco rk n R P None = Ok (R1, P1, Some F1).
Proof.
  unfold aplicarNVezes.
  destruct (laco rk n R P None) as [[[R' P'] [F'|]] | e]; cbn [bind];
    split; intros H; try discriminate; congruence.
Qed.

(** X1: advancing by [n] steps and then advancing the returned positions and
    momenta by [m >= 1] further steps is advancing by [n + m] steps at once:
    the same result, or the same exception. *)
Theorem X1_steps_compose (rk : RK4) (R P : mat) (n m : nat) (E E1 E2 : real)
    (R1 P1 : mat) (F1 : tensor) :
  aplicarNVezes rk R P n E = Ok (R1, P1, F1) ->
  (0 < m)%nat ->
  aplicarNVezes rk R P (n + m) E1 = aplicarNVezes rk R1 P1 m E2.
Proof.
  intros Hn Hm. apply aplicarNVezes_Ok_laco in Hn.
  unfold aplicarNVezes. rewrite laco_add, Hn. cbn [bind].
  now rewrite (laco_forgets_F rk m R1 P1 (Some F1) None).
Qed.

Lemma X1_steps_compose_witness :
  aplicarNVezes rk_dois R_dois P_dois (1 + 2) 0
  = aplicarNVezes rk_dois [[-1]; [1]] [[1/400]; [-(1/400)]] 2 0.
Proof.
  apply (X1_steps_compose rk_dois R_dois P_dois 1 2 0 0 0 _ _ _
           (aplicarNVezes_dois 0)).
  lia.
Defined.

(** X2: the force array that [aplicarNVezes] returns after [n + 1] steps is
    the one computed at the positions that entered the last step, not at the
    positions it returns. *)
Theorem X2_returned_forces_precede_last_step (rk : RK4) (R P : mat) (n : nat)
    (E : real) (R' P' : mat) (F : tensor) :
  aplicarNVezes rk R P (S n) E = Ok (R', P', F) <->
  exists R1 P1 F1 FSomas,
    laco rk n R P None = Ok (R1, P1, F1)
    /\ forcas rk R1 = Ok (F, FSomas)
    /\ runge_kutta4 rk R1 P1 FSomas = (R', P').
Proof.
  rewrite aplicarNVezes_Ok_laco.
  replace (S n) with (n + 1)%nat by lia. rewrite laco_add.
  split.
  - intros H.
    destruct (laco rk n R P None) as [[[R1 P1] F1] | e]; [|discriminate].
    cbn [bind laco] in H.
    destruct (forcas rk R1) as [[F' FS] | e] eqn:HF; [|discriminate].
    cbn [bind] in H.
    destruct (runge_kutta4 rk R1 P1 FS) as [R2 P2] eqn:HRK.
    injection H as -> -> ->.
    now exists R1, P1, F1, FS.
  - intros (R1 & P1 & F1 & FS & HL & HF & HRK).
    rewrite HL. cbn [bind laco]. rewrite HF. cbn [bind]. now rewrite HRK.
Qed.

(** ** Free motion *)

Lemma runge_kutta4_built (massas : list real) (h0 G0 : real) (D : nat)
    (R P FSomas : mat) :
  shape2 (length massas) D R ->
  shape2 (length massas) D P ->
  shape2 (length massas) D FSomas ->
  runge_kutta4 (built massas h0 G0 D) R P FSomas
  = (tab2 (length massas) D
       (fun i k => get2 R i k + avanco h0 (1 / nth i massas 0) (get2 P i k)),
     tab2 (length massas) D (fun i k => get2 P i k + h0 * get2 FSomas i k)).
Proof.
  intros HR HP HFS.
  rewrite (shape2_tab2 _ _ R HR) at 1.
  rewrite (shape2_tab2 _ _ P HP) at 1.
  rewrite (shape2_tab2 _ _ FSomas HFS) at 1.
  now rewrite (runge_kutta4_tab _ (length massas) D
                 (fun i _ => 1 / nth i massas 0)).
Qed.

Section Livre.

Variables (massas : list real) (h0 G0 : real) (D : nat).
Hypothesis HN : (0 < length massas)%nat.

(** No particle feels a net force, wherever the particles are. *)
Hypothesis Hlivre :
  forall r j k, (j < length massas)%nat -> (k < D)%nat ->
    rsum (length massas)
      (fun i => F_entry G0 (prodM_entry massas) D r i j k) = 0.

Lemma passo_livre (R P : mat) :
  shape2 (length massas) D R -> shape2 (length massas) D P ->
  exists F FSomas R1,
    forcas (built massas h0 G0 D) R = Ok (F, FSomas)
    /\ runge_kutta4 (built massas h0 G0 D) R P FSomas = (R1, P)
    /\ shape2 (length massas) D R1
    /\ (forall i k, (i < length massas)%nat -> (k < D)%nat ->
          get2 R1 i k
          = get2 R i k + avanco h0 (1 / nth i massas 0) (get2 P i k)).
Proof.
  intros HR HP.
  rewrite (forcas_built massas h0 G0 D D R HN HR).
  do 3 eexists. split; [reflexivity|].
  rewrite runge_kutta4_built by (assumption || apply tab2_shape2).
  split_all.
  - f_equal.
    transitivity (tab2 (length massas) D (get2 P));
      [| symmetry; now apply shape2_tab2].
    apply tab2_ext. intros i k Hi Hk.
    rewrite get2_tab2, Hlivre by assumption. lra.
  - apply tab2_shape2.
  - intros i k Hi Hk. now rewrite get2_tab2.
Qed.

Lemma laco_livre (n : nat) :
  forall (R P : mat) (F0 : option tensor),
    shape2 (length massas) D R -> shape2 (length massas) D P ->
    exists R' F',
      laco (built massas h0 G0 D) n R P F0 = Ok (R', P, F')
      /\ shape2 (length massas) D R'
      /\ (forall i k, (i < length massas)%nat -> (k < D)%nat ->
            get2 R' i k
            = get2 R i k
              + INR n * avanco h0 (1 / nth i massas 0) (get2 P i k))
      /\ ((0 < n)%nat -> exists F, F' = Some F).
Proof.
  induction n as [|n IH]; intros R P F0 HR HP.
  - exists R, F0. cbn [laco INR]. split_all; auto.
    + intros. lra.
    + intros Hn. exfalso. lia.
  - destruct (passo_livre R P HR HP) as (F & FS & R1 & HF & HRK & HR1 & Hget).
    destruct (IH R1 P (Some F) HR1 HP) as (R' & F' & HL & HR' & Hget' & HF').
    exists R', F'. cbn [laco]. rewrite HF. cbn [bind]. rewrite HRK.
    split_all; auto.
    + intros i k Hi Hk. rewrite Hget', Hget by assumption.
      rewrite S_INR. lra.
    + intros _. destruct n as [|n'].
      * cbn [laco] in HL. injection HL as _ <-. now exists F.
      * apply HF'. lia.
Qed.

End Livre.

Lemma F_entry_G0 pm (D : nat) r (i j k : nat) : F_entry 0 pm D r i j k = 0.
Proof. unfold F_entry. ring. Qed.

(** X3: from rest, the first step moves nothing.  When every momentum is
    zero, one step returns the positions it was given, for any number of
    particles and any forces between them. *)
Theorem X3_first_step_from_rest_keeps_positions (massas : list real)
    (h0 G0 : real) (D : nat) (rk : RK4) (R P : mat) (E : real) :
  init massas h0 G0 D = Ok rk ->
  massas <> [] ->
  shape2 (length massas) D R ->
  shape2 (length massas) D P ->
  (forall i k, get2 P i k = 0) ->
  exists P' F, aplicarNVezes rk R P 1 E = Ok (R, P', F).
Proof.
  intros Hrk Hne HR HP H0. apply init_inv in Hrk. subst rk.
  assert (HN : (0 < length massas)%nat)
    by (destruct massas; [congruence | cbn; lia]).
  unfold aplicarNVezes. cbn [laco].
  rewrite (forcas_built massas h0 G0 D D R HN HR). cbn [bind].
  rewrite runge_kutta4_built by (assumption || apply tab2_shape2).
  cbn [bind]. do 2 eexists. do 3 f_equal.
  transitivity (tab2 (length massas) D (get2 R));
    [| symmetry; now apply shape2_tab2].
  apply tab2_ext. intros i k _ _. rewrite H0. unfold avanco. ring.
Qed.

Lemma P_dois_rest : forall i k, get2 P_dois i k = 0.
Proof.
  intros i k. unfold get2, P_dois.
  destruct i as [|[|[|i]]]; cbn [nth]; destruct k as [|[|k]]; reflexivity.
Qed.

Lemma X3_first_step_from_rest_keeps_positions_witness :
  exists P' F, aplicarNVezes rk_dois R_dois P_dois 1 0 = Ok (R_dois, P', F).
Proof.
  exact (X3_first_step_from_rest_keeps_positions massas_dois 0.01 1 1 rk_dois
           R_dois P_dois 0 init_dois massas_dois_nonempty
           shape2_R_dois shape2_P_dois P_dois_rest).
Defined.

(** X4: a single particle moves freely.  After any number [n] of loop
    passes its momentum is what it was and each position component has
    grown by [n] times the same increment; for [n >= 1] this is what
    [aplicarNVezes] returns. *)
Theorem X4_single_particle_moves_freely (m h0 G0 : real) (D : nat) (rk : RK4)
    (R P : mat) (n : nat) (E : real) :
  init [m] h0 G0 D = Ok rk ->
  shape2 1 D R ->
  shape2 1 D P ->
  exists R' F',
    laco rk n R P None = Ok (R', P, F')
    /\ shape2 1 D R'
    /\ (forall k, (k < D)%nat ->
          get2 R' 0 k = get2 R 0 k + INR n * avanco h0 (1 / m) (get2 P 0 k))
    /\ ((0 < n)%nat -> exists F, aplicarNVezes rk R P n E = Ok (R', P, F)).
Proof.
  intros Hrk HR HP. apply init_inv in Hrk. subst rk.
  destruct (laco_livre [m] h0 G0 D) with (n := n) (R := R) (P := P)
    (F0 := @None tensor) as (R' & F' & HL & HR' & Hget & HF');
    try assumption; try (cbn; lia).
  - intros r j k Hj Hk. cbn [length] in Hj.
    assert (j = 0%nat) as -> by lia.
    cbn [length rsum]. rewrite F_entry_diag. lra.
  - exists R', F'. split_all; try assumption.
    + intros k Hk. apply (Hget 0%nat k); [cbn; lia | assumption].
    + intros Hn. destruct (HF' Hn) as [F ->]. exists F.
      unfold aplicarNVezes. now rewrite HL.
Qed.

Lemma X4_single_particle_moves_freely_witness :
  exists R' F',
    laco (built [2] 0.01 1 2) 5 [[1; 2]] [[3; 4]] None = Ok (R', [[3; 4]], F')
    /\ shape2 1 2 R'
    /\ (forall k, (k < 2)%nat ->
          get2 R' 0 k
          = get2 [[1; 2]] 0 k + INR 5 * avanco 0.01 (1 / 2) (get2 [[3; 4]] 0 k))
    /\ ((0 < 5)%nat ->
          exists F,
            aplicarNVezes (built [2] 0.01 1 2) [[1; 2]] [[3; 4]] 5 0
            = Ok (R', [[3; 4]], F)).
Proof.
  apply (X4_single_particle_moves_freely 2 0.01 1 2 (built [2] 0.01 1 2)
           [[1; 2]] [[3; 4]] 5 0).
  - apply init_ok. right. intros [H | []]. lra.
  - split; [reflexivity|]. repeat constructor.
  - split; [reflexivity|]. repeat constructor.
Defined.

(** ** Forces depend on relative positions only *)

Lemma transladar_tab2 (N D : nat) (r : nat -> nat -> R) (c : vec) :
  length c = D ->
  transladar c (tab2 N D r) = tab2 N D (fun i k => r i k + nth k c 0).
Proof.
  intros Hc. unfold transladar, tab2. rewrite map_tab.
  apply tab_ext. intros i _. unfold vadd.
  rewrite (tab_of_list 0 c) at 1. rewrite Hc. apply zipWith_tab.
Qed.

Lemma F_entry_shift (g : R) pm (D : nat) (r c : nat -> nat -> R) (i j k : nat) :
  (forall k', r i k' - r j k' = c i k' - c j k') ->
  F_entry g pm D r i j k = F_entry g pm D c i j k.
Proof.
  intros Hd. unfold F_entry.
  rewrite (rsum_ext D
             (fun k' => (1 * r i k' - 1 * r j k') * (1 * r i k' - 1 * r j k'))
             (fun k' => (1 * c i k' - 1 * c j k') * (1 * c i k' - 1 * c j k'))).
  - replace (1 * r i k - 1 * r j k) with (1 * c i k - 1 * c j k);
      [reflexivity|].
    generalize (Hd k). lra.
  - intros k' _.
    replace (1 * r i k' - 1 * r j k') with (1 * c i k' - 1 * c j k');
      [reflexivity|].
    generalize (Hd k'). lra.
Qed.

(** X6: displacing every particle by the same vector changes nothing in what
    [forcas] returns. *)
Theorem X6_forces_are_translation_invariant (massas : list real)
    (h0 G0 : real) (Dm : nat) (rk : RK4) (D : nat) (R : mat) (c : vec) :
  init massas h0 G0 Dm = Ok rk ->
  massas <> [] ->
  shape2 (length massas) D R ->
  length c = D ->
  forcas rk (transladar c R) = forcas rk R.
Proof.
  intros Hrk Hne HR Hc. apply init_inv in Hrk. subst rk.
  assert (HN : (0 < length massas)%nat)
    by (destruct massas; [congruence | cbn; lia]).
  rewrite (forcas_built massas h0 G0 Dm D R HN HR).
  rewrite (shape2_tab2 _ _ R HR) at 1.
  rewrite transladar_tab2 by assumption.
  rewrite (forcas_tab _ (length massas) D (prodM_entry massas))
    by (assumption || reflexivity).
  cbn [built G].
  assert (HE : forall i j k,
            F_entry G0 (prodM_entry massas) D
              (fun i' k' => get2 R i' k' + nth k' c 0) i j k
            = F_entry G0 (prodM_entry massas) D (get2 R) i j k).
  { intros i j k. apply F_entry_shift. intros k'. lra. }
  do 2 f_equal.
  - apply tab3_ext. intros i j k _ _ _. apply HE.
  - apply tab2_ext. intros j k _ _. apply rsum_ext. intros i _. apply HE.
Qed.

Lemma X6_forces_are_translation_invariant_witness :
  forcas rk_dois (transladar [10] R_dois) = forcas rk_dois R_dois.
Proof.
  exact (X6_forces_are_translation_invariant massas_dois 0.01 1 1 rk_dois 1
           R_dois [10] init_dois massas_dois_nonempty shape2_R_dois eq_refl).
Defined.

(** ** Where the division is by zero *)

Lemma rsum_nonneg (n : nat) (f : nat -> R) :
  (forall i, (i < n)%nat -> 0 <= f i) -> 0 <= rsum n f.
Proof.
  induction n as [|n IH]; intros Hf; cbn [rsum]; [lra|].
  assert (0 <= rsum n f) by (apply IH; intros; apply Hf; lia).
  assert (0 <= f n) by (apply Hf; lia). lra.
Qed.

Lemma rsum_nonneg_zero (n : nat) (f : nat -> R) :
  (forall i, (i < n)%nat -> 0 <= f i) ->
  (rsum n f = 0 <-> forall i, (i < n)%nat -> f i = 0).
Proof.
  induction n as [|n IH]; intros Hf; cbn [rsum].
  - split; [intros _ i Hi; lia | reflexivity].
  - assert (Hs : 0 <= rsum n f)
      by (apply rsum_nonneg; intros; apply Hf; lia).
    assert (Hn : 0 <= f n) by (apply Hf; lia).
    destruct IH as [IH1 IH2]; [intros; apply Hf; lia|].
    split.
    + intros Hz i Hi. destruct (Nat.eq_dec i n) as [-> | Hne]; [lra|].
      apply IH1; [lra | lia].
    + intros Hall. rewrite IH2 by (intros; apply Hall; lia).
      rewrite (Hall n) by lia. lra.
Qed.

Lemma pow32_pos (x : R) : 0 < x -> 0 < pow32 x.
Proof.
  intros Hx. unfold pow32. apply Rmult_lt_0_compat; [assumption|].
  now apply sqrt_lt_R0.
Qed.

Lemma denom_sign (D : nat) (R : mat) (i j : nat) :
  0 <= denom D R i j
  /\ (denom D R i j = 0 <->
        i <> j /\ forall k, (k < D)%nat -> get2 R i k = get2 R j k).
Proof.
  unfold denom.
  set (f := fun k => (get2 R i k - get2 R j k) * (get2 R i k - get2 R j k)).
  assert (Hf : forall k, (k < D)%nat -> 0 <= f k)
    by (intros k _; exact (Rle_0_sqr _)).
  assert (Hs : 0 <= rsum D f) by now apply rsum_nonneg.
  assert (Hp : 0 <= pow32 (rsum D f)) by now apply pow32_nonneg.
  assert (Hz' : (forall k, (k < D)%nat -> f k = 0) <->
                forall k, (k < D)%nat -> get2 R i k = get2 R j k).
  { split; intros H k Hk; specialize (H k Hk); unfold f in *; cbv beta in *.
    - apply Rmult_integral in H. destruct H; lra.
    - rewrite H. ring. }
  destruct (Nat.eqb_spec i j) as [-> | Hij].
  - split; [lra|]. split; [lra | intros [Hne _]; congruence].
  - split; [lra|]. split.
    + intros H0. split; [assumption|]. apply (proj1 Hz').
      apply (proj1 (rsum_nonneg_zero D f Hf)).
      destruct Hs as [Hpos | <-]; [|reflexivity].
      apply pow32_pos in Hpos. lra.
    + intros [_ Heq].
      pose proof (proj2 (rsum_nonneg_zero D f Hf) (proj2 Hz' Heq)) as Hs0.
      rewrite Hs0, pow32_0. lra.
Qed.

(** ** Gravity attracts *)

(** X8: with positive masses and [G > 0], the entry [F[j][i]], which is what
    particle [j] contributes to the net force on a different particle [i] at
    another position, is a positive multiple of the displacement from [i] to
    [j]: it pulls [i] towards [j]. *)
Theorem X8_pairwise_force_attracts (massas : list real) (h0 G0 : real)
    (Dm : nat) (rk : RK4) (D : nat) (R : mat) (i j : nat) :
  init massas h0 G0 Dm = Ok rk ->
  Forall (fun m => 0 < m) massas ->
  0 < G0 ->
  shape2 (length massas) D R ->
  (i < length massas)%nat -> (j < length massas)%nat -> i <> j ->
  (exists k, (k < D)%nat /\ get2 R i k <> get2 R j k) ->
  exists F FSomas c,
    forcas rk R = Ok (F, FSomas)
    /\ 0 < c
    /\ forall k, (k < D)%nat ->
         get3 F j i k = c * (get2 R j k - get2 R i k).
Proof.
  intros Hrk Hpos HG HR Hi Hj Hij (k0 & Hk0 & Hk0').
  assert (Hne : massas <> []) by (intros ->; cbn in Hi; lia).
  destruct (forcas_spec massas h0 G0 Dm rk D R Hrk Hne HR)
    as (F & FS & HF & _ & _ & HFe & _).
  assert (Hd : 0 < denom D R j i).
  { destruct (denom_sign D R j i) as [Hge Hz].
    destruct Hge as [Hlt | Heq]; [assumption|].
    symmetry in Heq. apply (proj1 Hz) in Heq. destruct Heq as [_ Heq].
    exfalso. apply Hk0'. symmetry. now apply Heq. }
  assert (Hm : forall a, (a < length massas)%nat -> 0 < nth a massas 0).
  { intros a Ha. rewrite Forall_forall in Hpos. apply Hpos, nth_In, Ha. }
  exists F, FS, (G0 * (nth j massas 0 * nth i massas 0) / denom D R j i).
  split_all; [assumption | |].
  - apply Rdiv_lt_0_compat; [|assumption].
    apply Rmult_lt_0_compat; [assumption|].
    apply Rmult_lt_0_compat; now apply Hm.
  - intros k Hk. rewrite HFe by assumption.
    rewrite (F_entry_get2 G0 _ (length massas)) by assumption.
    rewrite prodM_entry_spec.
    destruct (Nat.eqb_spec j i) as [E | _]; [congruence|].
    unfold Rdiv. ring.
Qed.

Lemma X8_pairwise_force_attracts_witness :
  exists F FSomas c,
    forcas rk_dois R_dois = Ok (F, FSomas)
    /\ 0 < c
    /\ forall k, (k < 1)%nat ->
         get3 F 1 0 k = c * (get2 R_dois 1 k - get2 R_dois 0 k).
Proof.
  apply (X8_pairwise_force_attracts massas_dois 0.01 1 1 rk_dois 1 R_dois
           0 1 init_dois (proj2 massas_dois_validas)).
  - lra.
  - exact shape2_R_dois.
  - cbn. lia.
  - cbn. lia.
  - discriminate.
  - exists 0%nat. split; [lia|]. cbn [get2 R_dois nth]. lra.
Defined.

(** ** The empty system *)

(** X9: an integrator for no particles at all is built without complaint,
    and cannot take a single step: whatever positions and momenta it is
    given, every call of [aplicarNVezes] with [n >= 1] raises. *)
Theorem X9_empty_system_cannot_step (h0 G0 : real) (D : nat) (R P : mat)
    (n : nat) (E : real) :
  init [] h0 G0 D = Ok (built [] h0 G0 D)
  /\ aplicarNVezes (built [] h0 G0 D) R P (S n) E = Raise ArrayError.
Proof. split; reflexivity. Qed.

(** ** A step of size zero *)

Lemma passo_h0 (massas : list real) (G0 : real) (D : nat) (R P : mat) :
  (0 < length massas)%nat ->
  shape2 (length massas) D R -> shape2 (length massas) D P ->
  exists F FSomas,
    forcas (built massas 0 G0 D) R = Ok (F, FSomas)
    /\ runge_kutta4 (built massas 0 G0 D) R P FSomas = (R, P).
Proof.
  intros HN HR HP.
  rewrite (forcas_built massas 0 G0 D D R HN HR).
  do 2 eexists. split; [reflexivity|].
  rewrite runge_kutta4_built by (assumption || apply tab2_shape2).
  f_equal.
  - transitivity (tab2 (length massas) D (get2 R));
      [| symmetry; now apply shape2_tab2].
    apply tab2_ext. intros i k _ _. unfold avanco, Rdiv. ring.
  - transitivity (tab2 (length massas) D (get2 P));
      [| symmetry; now apply shape2_tab2].
    apply tab2_ext. intros i k _ _. ring.
Qed.

(** * The driver *)

Section Driver.

Import String.

Variable ExnH : Type.
Variable H : mat -> mat -> list R -> ExnH + R.

Lemma init_cases (massas : list R) (h0 G0 : R) (D : nat) :
  ((0 < D)%nat /\ In 0 massas /\ init massas h0 G0 D = Raise ZeroDivisionError)
  \/ (~ ((0 < D)%nat /\ In 0 massas)
      /\ init massas h0 G0 D = Ok (built massas h0 G0 D)).
Proof.
  destruct (Nat.eq_dec D 0) as [HD | HD];
    [| destruct (in_dec Req_dec_T 0 massas) as [H0 | H0]].
  - right. split; [lia | apply init_ok; now left].
  - left. split_all; [lia | assumption | apply init_raise; [lia | assumption]].
  - right. split; [tauto | apply init_ok; now right].
Qed.

(** X10: how construction of the driver fails.  It raises IndexError exactly
    when the positions list is empty; it raises an exception of the
    integrator exactly when the first position has at least one coordinate
    and some mass is zero, and that exception is ZeroDivisionError; an
    exception of [H] comes out exactly when neither happened and [H] raised
    it. *)
Theorem X10_driver_construction_failures (massas : list R) (R0 P0 : mat)
    (h0 G0 : R) :
  (Simular.init ExnH H massas R0 P0 h0 G0 = inl (Simular.IndexError ExnH)
   <-> R0 = [])
  /\ (forall e,
        Simular.init ExnH H massas R0 P0 h0 G0 = inl (Simular.DoMetodo ExnH e)
        <-> e = ZeroDivisionError /\ R0 <> []
            /\ (0 < List.length (hd [] R0))%nat /\ In 0 massas)
  /\ (forall eh,
        Simular.init ExnH H massas R0 P0 h0 G0 = inl (Simular.DoH ExnH eh)
        <-> R0 <> []
            /\ ~ ((0 < List.length (hd [] R0))%nat /\ In 0 massas)
            /\ H R0 P0 massas = inl eh).
Proof.
  destruct R0 as [|R00 Rs].
  - cbn [Simular.init]. split_all.
    + tauto.
    + intros e. split; [discriminate | intros (_ & Hne & _); congruence].
    + intros eh. split; [discriminate | intros (Hne & _); congruence].
  - cbn [Simular.init hd]. unfold Simular.metodo_integracao.
    destruct (init_cases massas h0 G0 (List.length R00))
      as [(HD & H0 & ->) | (Hn & ->)].
    + split_all.
      * split; discriminate.
      * intros e. split.
        -- intros He. injection He as <-. split_all; auto. discriminate.
        -- intros (-> & _). reflexivity.
      * intros eh. split; [discriminate|]. intros (_ & Hn & _). tauto.
    + destruct (H (R00 :: Rs) P0 massas) as [eh' | e0] eqn:HH; split_all.
      * split; discriminate.
      * intros e. split; [discriminate|]. intros (_ & _ & HD & H0). tauto.
      * intros eh. split.
        -- intros He. injection He as <-. split_all; auto. discriminate.
        -- intros (_ & _ & He). congruence.
      * split; discriminate.
      * intros e. split; [discriminate|]. intros (_ & _ & HD & H0). tauto.
      * intros eh. split; [discriminate|]. intros (_ & _ & He). discriminate.
Qed.

End Driver.

(** * The points file *)

Section Arquivo.

Import String.

Variable str : R -> string.
Variable SEPARADOR : string.

Lemma escrever_same (fs : Simular.arquivos) (path txt : string) :
  Simular.escrever fs path txt path = Some txt.
Proof. unfold Simular.escrever. now rewrite String.eqb_refl. Qed.

Lemma acrescentar_same (fs : Simular.arquivos) (path txt : string) :
  Simular.acrescentar fs path txt path
  = Some (match fs path with
          | Some old => append old txt
          | None => txt
          end).
Proof. unfold Simular.acrescentar. now rewrite String.eqb_refl. Qed.

Lemma escrever_other (fs : Simular.arquivos) (path txt q : string) :
  q <> path -> Simular.escrever fs path txt q = fs q.
Proof.
  intros Hq. unfold Simular.escrever.
  now rewrite (proj2 (String.eqb_neq q path) Hq).
Qed.

Lemma acrescentar_other (fs : Simular.arquivos) (path txt q : string) :
  q <> path -> Simular.acrescentar fs path txt q = fs q.
Proof.
  intros Hq. unfold Simular.acrescentar.
  now rewrite (proj2 (String.eqb_neq q path) Hq).
Qed.

(** X12: the format of the points file.  After [abrirArquivo] and two calls
    of [salvarPontos] on the same name, the file holds the comma-separated
    masses, the separator without its last character, and then each
    snapshot in the order saved, each preceded by a line break; whatever the
    file held before is gone, and no other file has changed. *)
Theorem X12_points_file_format (fs : Simular.arquivos) (massas : list R)
    (p1 p2 : list (list R)) (nome : string) :
  let fs' :=
    Simular.salvarPontos str
      (Simular.salvarPontos str
         (Simular.abrirArquivo str SEPARADOR fs massas nome) p1 nome)
      p2 nome in
  fs' (append "pontos/" nome)
  = Some (append
            (append
               (append (concat "," (map str massas))
                       (Simular.sem_ultimo SEPARADOR))
               (append Simular.nl (Simular.linhas str p1)))
            (append Simular.nl (Simular.linhas str p2)))
  /\ forall q, q <> append "pontos/" nome -> fs' q = fs q.
Proof.
  cbv zeta. unfold Simular.salvarPontos, Simular.abrirArquivo. split.
  - now rewrite acrescentar_same, acrescentar_same, escrever_same.
  - intros q Hq.
    now rewrite !acrescentar_other, escrever_other by assumption.
Qed.

Lemma quebras_append (a b : string) :
  Simular.quebras (append a b) = (Simular.quebras a + Simular.quebras b)%nat.
Proof.
  induction a as [|c a IH]; [reflexivity|].
  cbn [append Simular.quebras]. rewrite IH. lia.
Qed.

Lemma quebras_concat_virgula (l : list string) :
  (forall x, In x l -> Simular.quebras x = 0%nat) ->
  Simular.quebras (concat "," l) = 0%nat.
Proof.
  induction l as [|x [|y l] IH]; intros Hl.
  - reflexivity.
  - apply Hl. now left.
  - change (concat "," (x :: y :: l))
      with (append x (append "," (concat "," (y :: l)))).
    rewrite !quebras_append, IH by (intros z Hz; apply Hl; now right).
    rewrite (Hl x) by now left. reflexivity.
Qed.

Lemma quebras_concat_nl (l : list string) :
  (forall x, In x l -> Simular.quebras x = 0%nat) ->
  Simular.quebras (concat Simular.nl l) = Nat.pred (List.length l).
Proof.
  induction l as [|x [|y l] IH]; intros Hl.
  - reflexivity.
  - cbn. apply Hl. now left.
  - change (concat Simular.nl (x :: y :: l))
      with (append x (append Simular.nl (concat Simular.nl (y :: l)))).
    rewrite !quebras_append, IH by (intros z Hz; apply Hl; now right).
    rewrite (Hl x) by now left. reflexivity.
Qed.

(** X13: one line per point.  When [str] never produces a line break,
    [salvarPontos] adds to the file as many line breaks as the snapshot has
    points, and one line break when the snapshot is empty. *)
Theorem X13_one_line_per_point (fs : Simular.arquivos)
    (pontos : list (list R)) (nome : string) :
  (forall x, Simular.quebras (str x) = 0%nat) ->
  exists novo,
    Simular.salvarPontos str fs pontos nome (append "pontos/" nome) = Some novo
    /\ Simular.quebras novo
       = (match fs (append "pontos/" nome) with
          | Some antigo => Simular.quebras antigo
          | None => 0
          end
          + Nat.max 1 (List.length pontos))%nat.
Proof.
  intros Hstr. unfold Simular.salvarPontos. rewrite acrescentar_same.
  eexists. split; [reflexivity|].
  assert (HL : Simular.quebras (append Simular.nl (Simular.linhas str pontos))
               = Nat.max 1 (List.length pontos)).
  { rewrite quebras_append. unfold Simular.linhas.
    rewrite quebras_concat_nl.
    - rewrite !length_map. cbn. destruct (List.length pontos); reflexivity.
    - intros x Hx. apply in_map_iff in Hx as (row & <- & Hrow).
      apply in_map_iff in Hrow as (pts & <- & _).
      apply quebras_concat_virgula.
      intros y Hy. apply in_map_iff in Hy as (v & <- & _). apply Hstr. }
  destruct (fs (append "pontos/" nome)) as [antigo|].
  - rewrite quebras_append, HL. reflexivity.
  - rewrite HL. reflexivity.
Qed.

End Arquivo.

Section ArquivoExemplo.

Import String.

Lemma X13_one_line_per_point_witness :
  exists novo,
    Simular.salvarPontos (fun _ => "0"%string) (fun _ => None)
      [[1; 2]; [3; 4]; [5; 6]] "pontos.txt"%string (append "pontos/" "pontos.txt"%string)
    = Some novo
    /\ Simular.quebras novo = (0 + Nat.max 1 3)%nat.
Proof.
  apply (X13_one_line_per_point (fun _ => "0"%string) (fun _ => None)
           [[1; 2]; [3; 4]; [5; 6]] "pontos.txt"%string).
  reflexivity.
Defined.

End ArquivoExemplo.

(** * Forces and momenta where no two particles coincide *)

(** ** The array [forcas] divides by *)

Lemma forcas_norma_tab (rk : RK4) (N D : nat) (r : nat -> nat -> R) :
  vetorUm rk = ones N -> identidade rk = identity N ->
  forcas_norma rk (tab2 N D r)
  = tab2 N N
      (fun i j =>
         pow32 (rsum D (fun k => (1 * r i k - 1 * r j k)
                                 * (1 * r i k - 1 * r j k)))
         + (if Nat.eqb i j then 1 else 0)).
Proof.
  intros Hum Hid. unfold forcas_norma, forcas_difX.
  rewrite Hum, Hid, ones_tab2.
  rewrite einsum_ij_ijk_broadcast, transpose_tab3, tsub_tab3.
  rewrite einsum_ijk_ij_tab, map2_tab2.
  change (identity N)
    with (tab2 N N (fun i j => if Nat.eqb i j then 1 else 0)).
  now rewrite madd_tab2.
Qed.

Lemma forcas_norma_built (massas : list real) (h0 G0 : real) (Dm D : nat)
    (R : mat) :
  shape2 (length massas) D R ->
  shape2 (length massas) (length massas)
    (forcas_norma (built massas h0 G0 Dm) R)
  /\ forall i j, (i < length massas)%nat -> (j < length massas)%nat ->
       get2 (forcas_norma (built massas h0 G0 Dm) R) i j = denom D R i j.
Proof.
  intros HR.
  pose proof (forcas_norma_tab (built massas h0 G0 Dm) (length massas) D
                (get2 R) eq_refl eq_refl) as E.
  rewrite <- (shape2_tab2 _ _ R HR) in E. rewrite E.
  split; [apply tab2_shape2|].
  intros i j Hi Hj. rewrite get2_tab2 by assumption.
  unfold denom. f_equal. f_equal. apply rsum_ext. intros k _. ring.
Qed.

Lemma distintas_denom (N D : nat) (R : mat) (i j : nat) :
  distintas N D R -> (i < N)%nat -> (j < N)%nat -> denom D R i j <> 0.
Proof.
  intros Hd Hi Hj H0. apply (proj1 (proj2 (denom_sign D R i j))) in H0.
  destruct H0 as [Hij Heq].
  destruct (Hd i j Hi Hj Hij) as (k & Hk & Hne). now apply Hne, Heq.
Qed.

(** ** The two-body scenario has no coincidence *)

Lemma distintas_dois : distintas 2 1 [[-1]; [1]].
Proof.
  intros i j Hi Hj Hij. exists 0%nat. split; [lia|].
  destruct i as [|[|i]]; destruct j as [|[|j]]; try lia;
    cbn [get2 nth]; lra.
Qed.

Lemma laco_dois_1 (F0 : option tensor) :
  laco rk_dois 1 R_dois P_dois F0
  = Ok ([[-1]; [1]], [[1/400]; [-(1/400)]],
        Some [[[0]; [-(1/4)]]; [[1/4]; [0]]]).
Proof.
  cbn [laco]. rewrite forcas_dois. cbn [bind].
  now rewrite runge_kutta4_dois.
Qed.

Lemma sem_colisao_dois : sem_colisao rk_dois 2 1 2 R_dois P_dois.
Proof.
  intros m Rm Pm Fm Hm HL. destruct m as [|[|m]]; [| |lia].
  - cbn [laco] in HL. injection HL as <- _ _. exact distintas_dois.
  - rewrite laco_dois_1 in HL. injection HL as <- _ _. exact distintas_dois.
Qed.

(** ** Forces *)

(** C5: where no two particles coincide, the array [norma] that [forcas]
    divides by is, entry by entry, the squared distance to the power 3/2 plus
    the identity matrix, and has no zero entry; entry [i][j] of the pairwise
    array is [G * prodM[i][j] * (R[i] - R[j]) / norma[i][j]]; on the diagonal
    the denominator is 1 and the force is the zero vector. *)
Theorem C5_pairwise_force_formula (massas : list real) (h0 G0 : real)
    (Dm : nat) (rk : RK4) (D : nat) (R : mat) :
  init massas h0 G0 Dm = Ok rk ->
  massas <> [] ->
  shape2 (length massas) D R ->
  distintas (length massas) D R ->
  exists F FSomas,
    forcas rk R = Ok (F, FSomas)
    /\ shape3 (length massas) D F
    /\ shape2 (length massas) (length massas) (forcas_norma rk R)
    /\ (forall i j, (i < length massas)%nat -> (j < length massas)%nat ->
          get2 (forcas_norma rk R) i j = denom D R i j
          /\ get2 (forcas_norma rk R) i j <> 0)
    /\ (forall i j k,
          (i < length massas)%nat -> (j < length massas)%nat -> (k < D)%nat ->
          get3 F i j k
          = G rk * get2 (prodM rk) i j * (get2 R i k - get2 R j k)
            / get2 (forcas_norma rk R) i j)
    /\ (forall i k, (i < length massas)%nat -> (k < D)%nat ->
          get2 (forcas_norma rk R) i i = 1 /\ get3 F i i k = 0).
Proof.
  intros Hrk Hne HR Hd.
  destruct (forcas_spec massas h0 G0 Dm rk D R Hrk Hne HR)
    as (F & FS & HF & HsF & _ & HFe & _).
  apply init_inv in Hrk. subst rk.
  destruct (forcas_norma_built massas h0 G0 Dm D R HR) as [HsN HN].
  exists F, FS. split_all; try assumption.
  - intros i j Hi Hj. rewrite HN by assumption.
    split; [reflexivity | now apply (distintas_denom (length massas))].
  - intros i j k Hi Hj Hk. rewrite HFe, HN by assumption.
    rewrite prodM_built by assumption. cbn [built G].
    now apply (F_entry_get2 G0 _ (length massas)).
  - intros i k Hi Hk. rewrite HN by assumption. split; [apply denom_diag|].
    rewrite HFe by assumption. apply F_entry_diag.
Qed.

Lemma C5_pairwise_force_formula_witness :
  exists F FSomas,
    forcas rk_dois R_dois = Ok (F, FSomas)
    /\ shape3 2 1 F
    /\ shape2 2 2 (forcas_norma rk_dois R_dois)
    /\ (forall i j, (i < 2)%nat -> (j < 2)%nat ->
          get2 (forcas_norma rk_dois R_dois) i j = denom 1 R_dois i j
          /\ get2 (forcas_norma rk_dois R_dois) i j <> 0)
    /\ (forall i j k, (i < 2)%nat -> (j < 2)%nat -> (k < 1)%nat ->
          get3 F i j k
          = G rk_dois * get2 (prodM rk_dois) i j
            * (get2 R_dois i k - get2 R_dois j k)
            / get2 (forcas_norma rk_dois R_dois) i j)
    /\ (forall i k, (i < 2)%nat -> (k < 1)%nat ->
          get2 (forcas_norma rk_dois R_dois) i i = 1 /\ get3 F i i k = 0).
Proof.
  exact (C5_pairwise_force_formula massas_dois 0.01 1 1 rk_dois 1 R_dois
           init_dois massas_dois_nonempty shape2_R_dois distintas_dois).
Defined.

(** C6: where no two particles coincide, the pairwise array is an
    N x N x D array, antisymmetric in its two particle indices, and its
    diagonal entries are the zero vector. *)
Theorem C6_pairwise_antisymmetry (massas : list real) (h0 G0 : real)
    (Dm : nat) (rk : RK4) (D : nat) (R : mat) :
  init massas h0 G0 Dm = Ok rk ->
  massas <> [] ->
  shape2 (length massas) D R ->
  distintas (length massas) D R ->
  exists F FSomas,
    forcas rk R = Ok (F, FSomas)
    /\ shape3 (length massas) D F
    /\ (forall i j, (i < length massas)%nat -> (j < length massas)%nat ->
          get2 (forcas_norma rk R) i j <> 0)
    /\ (forall i j k,
          (i < length massas)%nat -> (j < length massas)%nat -> (k < D)%nat ->
          get3 F i j k = - get3 F j i k)
    /\ (forall i k, (i < length massas)%nat -> (k < D)%nat ->
          get3 F i i k = 0).
Proof.
  intros Hrk Hne HR Hd.
  destruct (forcas_spec massas h0 G0 Dm rk D R Hrk Hne HR)
    as (F & FS & HF & HsF & _ & HFe & _).
  apply init_inv in Hrk. subst rk.
  destruct (forcas_norma_built massas h0 G0 Dm D R HR) as [_ HN].
  exists F, FS. split_all; try assumption.
  - intros i j Hi Hj. rewrite HN by assumption.
    now apply (distintas_denom (length massas)).
  - intros i j k Hi Hj Hk. rewrite !HFe by assumption.
    apply F_entry_antisym, prodM_entry_sym.
  - intros i k Hi Hk. rewrite HFe by assumption. apply F_entry_diag.
Qed.

Lemma C6_pairwise_antisymmetry_witness :
  exists F FSomas,
    forcas rk_dois R_dois = Ok (F, FSomas)
    /\ shape3 2 1 F
    /\ (forall i j, (i < 2)%nat -> (j < 2)%nat ->
          get2 (forcas_norma rk_dois R_dois) i j <> 0)
    /\ (forall i j k, (i < 2)%nat -> (j < 2)%nat -> (k < 1)%nat ->
          get3 F i j k = - get3 F j i k)
    /\ (forall i k, (i < 2)%nat -> (k < 1)%nat -> get3 F i i k = 0).
Proof.
  exact (C6_pairwise_antisymmetry massas_dois 0.01 1 1 rk_dois 1 R_dois
           init_dois massas_dois_nonempty shape2_R_dois distintas_dois).
Defined.

(** C3, amended: where no two particles coincide, the net force on particle
    [i] is the sum over [j] of [F[j][i]], the reduction over the first index.
    It is the opposite of the sum of [F[i][j]] over the second index, and it
    is the attraction of all other particles on particle [i]. *)
Theorem C3_net_force_is_first_index_sum (massas : list real) (h0 G0 : real)
    (Dm : nat) (rk : RK4) (D : nat) (R : mat) :
  init massas h0 G0 Dm = Ok rk ->
  massas <> [] ->
  shape2 (length massas) D R ->
  distintas (length massas) D R ->
  exists F FSomas,
    forcas rk R = Ok (F, FSomas)
    /\ shape2 (length massas) D FSomas
    /\ (forall i j, (i < length massas)%nat -> (j < length massas)%nat ->
          get2 (forcas_norma rk R) i j <> 0)
    /\ (forall i k, (i < length massas)%nat -> (k < D)%nat ->
          get2 FSomas i k = rsum (length massas) (fun j => get3 F j i k)
          /\ get2 FSomas i k = - rsum (length massas) (fun j => get3 F i j k)
          /\ get2 FSomas i k
             = rsum (length massas)
                 (fun j => G rk * get2 (prodM rk) i j
                           * (get2 R j k - get2 R i k)
                           / get2 (forcas_norma rk R) j i)).
Proof.
  intros Hrk Hne HR Hd.
  destruct (forcas_spec massas h0 G0 Dm rk D R Hrk Hne HR)
    as (F & FS & HF & _ & HsFS & HFe & HFS).
  apply init_inv in Hrk. subst rk.
  destruct (forcas_norma_built massas h0 G0 Dm D R HR) as [_ HN].
  exists F, FS. split_all; try assumption.
  - intros i j Hi Hj. rewrite HN by assumption.
    now apply (distintas_denom (length massas)).
  - intros i k Hi Hk. split_all.
    + now apply HFS.
    + rewrite HFS by assumption. rewrite <- rsum_opp.
      apply rsum_ext. intros j Hj. rewrite !HFe by assumption.
      apply F_entry_antisym, prodM_entry_sym.
    + rewrite HFS by assumption.
      apply rsum_ext. intros j Hj. rewrite HFe, HN by assumption.
      rewrite prodM_built by assumption. cbn [built G].
      rewrite (F_entry_get2 G0 _ (length massas)) by assumption.
      now rewrite (prodM_entry_sym massas j i).
Qed.

Lemma C3_net_force_is_first_index_sum_witness :
  exists F FSomas,
    forcas rk_dois R_dois = Ok (F, FSomas)
    /\ shape2 2 1 FSomas
    /\ (forall i j, (i < 2)%nat -> (j < 2)%nat ->
          get2 (forcas_norma rk_dois R_dois) i j <> 0)
    /\ (forall i k, (i < 2)%nat -> (k < 1)%nat ->
          get2 FSomas i k = rsum 2 (fun j => get3 F j i k)
          /\ get2 FSomas i k = - rsum 2 (fun j => get3 F i j k)
          /\ get2 FSomas i k
             = rsum 2
                 (fun j => G rk_dois * get2 (prodM rk_dois) i j
                           * (get2 R_dois j k - get2 R_dois i k)
                           / get2 (forcas_norma rk_dois R_dois) j i)).
Proof.
  exact (C3_net_force_is_first_index_sum massas_dois 0.01 1 1 rk_dois 1
           R_dois init_dois massas_dois_nonempty shape2_R_dois distintas_dois).
Defined.

Lemma forcas_norma_nonzero (massas : list real) (h0 G0 : real) (Dm D : nat)
    (R : mat) (i j : nat) :
  shape2 (length massas) D R ->
  distintas (length massas) D R ->
  (i < length massas)%nat -> (j < length massas)%nat ->
  get2 (forcas_norma (built massas h0 G0 Dm) R) i j <> 0.
Proof.
  intros HR Hd Hi Hj.
  rewrite (proj2 (forcas_norma_built massas h0 G0 Dm D R HR)) by assumption.
  now apply (distintas_denom (length massas)).
Qed.

(** X7: the array [norma] by which [forcas] divides has no negative entry,
    and its entry [(i, j)] is zero exactly when [i] and [j] are two different
    particles at the same position: the identity matrix protects the diagonal
    and nothing else. *)
Theorem X7_zero_denominator_iff_coincident (massas : list real)
    (h0 G0 : real) (Dm : nat) (rk : RK4) (D : nat) (R : mat) (i j : nat) :
  init massas h0 G0 Dm = Ok rk ->
  shape2 (length massas) D R ->
  (i < length massas)%nat -> (j < length massas)%nat ->
  0 <= get2 (forcas_norma rk R) i j
  /\ (get2 (forcas_norma rk R) i j = 0 <->
        i <> j /\ forall k, (k < D)%nat -> get2 R i k = get2 R j k).
Proof.
  intros Hrk HR Hi Hj. apply init_inv in Hrk. subst rk.
  rewrite (proj2 (forcas_norma_built massas h0 G0 Dm D R HR)) by assumption.
  apply denom_sign.
Qed.

Lemma X7_zero_denominator_iff_coincident_witness :
  0 <= get2 (forcas_norma rk_dois R_dois) 0 1
  /\ (get2 (forcas_norma rk_dois R_dois) 0 1 = 0 <->
        0%nat <> 1%nat
        /\ forall k, (k < 1)%nat -> get2 R_dois 0 k = get2 R_dois 1 k).
Proof.
  apply (X7_zero_denominator_iff_coincident massas_dois 0.01 1 1 rk_dois 1
           R_dois 0 1 init_dois shape2_R_dois); cbn; lia.
Defined.

(** ** Momentum *)

(** C7: on an integrator that [init] returned, as long as no two particles
    coincide at the positions entering a pass, the loop of [aplicarNVezes]
    runs any number [n] of passes and leaves every component of the total
    momentum as it was; at every pass [forcas] divides by no zero and the net
    forces add up to the zero vector.  For [n >= 1] the call returns the
    positions and momenta of the loop. *)
Theorem C7_total_momentum_is_invariant (massas : list real) (h0 G0 : real)
    (D : nat) (rk : RK4) (R P : mat) (n : nat) (E : real) :
  init massas h0 G0 D = Ok rk ->
  massas <> [] ->
  shape2 (length massas) D R ->
  shape2 (length massas) D P ->
  sem_colisao rk (length massas) D n R P ->
  (forall m Rm Pm Fm, (m < n)%nat ->
     laco rk m R P None = Ok (Rm, Pm, Fm) ->
     (forall i j, (i < length massas)%nat -> (j < length massas)%nat ->
        get2 (forcas_norma rk Rm) i j <> 0)
     /\ exists F FSomas,
          forcas rk Rm = Ok (F, FSomas)
          /\ forall k, (k < D)%nat -> total (length massas) FSomas k = 0)
  /\ exists R' P' F',
       laco rk n R P None = Ok (R', P', F')
       /\ shape2 (length massas) D R' /\ shape2 (length massas) D P'
       /\ (forall k, (k < D)%nat ->
             total (length massas) P' k = total (length massas) P k)
       /\ ((0 < n)%nat ->
             exists F, aplicarNVezes rk R P n E = Ok (R', P', F)).
Proof.
  intros Hrk Hne HR HP Hcol. apply init_inv in Hrk. subst rk.
  assert (HN : (0 < length massas)%nat)
    by (destruct massas; [congruence | cbn; lia]).
  split.
  - intros m Rm Pm Fm Hm HLm.
    destruct (laco_momentum massas h0 G0 D HN m R P None HR HP)
      as (R1 & P1 & F1 & HL & HR1 & HP1 & _).
    rewrite HLm in HL. injection HL as <- <- <-.
    split.
    + intros i j Hi Hj. apply (forcas_norma_nonzero massas h0 G0 D D);
        try assumption.
      exact (Hcol m Rm Pm Fm Hm HLm).
    + destruct (passo_momentum massas h0 G0 D HN Rm Pm HR1 HP1)
        as (F & FS & HF & _ & _ & _ & Hz & _).
      now exists F, FS.
  - destruct (laco_momentum massas h0 G0 D HN n R P None HR HP)
      as (R' & P' & F' & HL & HR' & HP' & Htot & _ & HF').
    exists R', P', F'. split_all; try assumption.
    intros Hn. destruct (HF' Hn) as [F ->]. exists F.
    unfold aplicarNVezes. rewrite HL. reflexivity.
Qed.

Lemma C7_total_momentum_is_invariant_witness :
  (forall m Rm Pm Fm, (m < 2)%nat ->
     laco rk_dois m R_dois P_dois None = Ok (Rm, Pm, Fm) ->
     (forall i j, (i < 2)%nat -> (j < 2)%nat ->
        get2 (forcas_norma rk_dois Rm) i j <> 0)
     /\ exists F FSomas,
          forcas rk_dois Rm = Ok (F, FSomas)
          /\ forall k, (k < 1)%nat -> total 2 FSomas k = 0)
  /\ exists R' P' F',
       laco rk_dois 2 R_dois P_dois None = Ok (R', P', F')
       /\ shape2 2 1 R' /\ shape2 2 1 P'
       /\ (forall k, (k < 1)%nat -> total 2 P' k = total 2 P_dois k)
       /\ ((0 < 2)%nat ->
             exists F, aplicarNVezes rk_dois R_dois P_dois 2 0 = Ok (R', P', F)).
Proof.
  exact (C7_total_momentum_is_invariant massas_dois 0.01 1 1 rk_dois
           R_dois P_dois 2 0 init_dois massas_dois_nonempty
           shape2_R_dois shape2_P_dois sem_colisao_dois).
Defined.

(** ** Free motion without gravity, and a step of size zero *)

(** X5: with [G = 0] nothing interacts.  As long as no two particles
    coincide at the positions entering a pass, every force entry of every
    pass is zero, and after any number [n] of loop passes the momenta are
    what they were and every particle has moved freely. *)
Theorem X5_no_gravity_no_interaction (massas : list real) (h0 : real)
    (D : nat) (rk : RK4) (R P : mat) (n : nat) (E : real) :
  init massas h0 0 D = Ok rk ->
  massas <> [] ->
  shape2 (length massas) D R ->
  shape2 (length massas) D P ->
  sem_colisao rk (length massas) D n R P ->
  (forall m Rm Pm Fm, (m < n)%nat ->
     laco rk m R P None = Ok (Rm, Pm, Fm) ->
     (forall i j, (i < length massas)%nat -> (j < length massas)%nat ->
        get2 (forcas_norma rk Rm) i j <> 0)
     /\ exists F FSomas,
          forcas rk Rm = Ok (F, FSomas)
          /\ forall i j k,
               (i < length massas)%nat -> (j < length massas)%nat ->
               (k < D)%nat -> get3 F i j k = 0)
  /\ exists R' F',
       laco rk n R P None = Ok (R', P, F')
       /\ (forall i k, (i < length massas)%nat -> (k < D)%nat ->
             get2 R' i k
             = get2 R i k
               + INR n * avanco h0 (1 / nth i massas 0) (get2 P i k))
       /\ ((0 < n)%nat -> exists F, aplicarNVezes rk R P n E = Ok (R', P, F)).
Proof.
  intros Hrk Hne HR HP Hcol.
  pose proof (init_inv _ _ _ _ _ Hrk) as Erk.
  assert (HN : (0 < length massas)%nat)
    by (destruct massas; [congruence | cbn; lia]).
  assert (Hlivre : forall r j k,
            (j < length massas)%nat -> (k < D)%nat ->
            rsum (length massas)
              (fun i => F_entry 0 (prodM_entry massas) D r i j k) = 0).
  { intros r j k _ _.
    rewrite (rsum_ext _ _ (fun _ => 0)) by (intros; apply F_entry_G0).
    apply rsum_zero. }
  split.
  - intros m Rm Pm Fm Hm HLm.
    assert (HRm : shape2 (length massas) D Rm).
    { subst rk.
      destruct (laco_livre massas h0 0 D HN Hlivre m R P None HR HP)
        as (R1 & F1 & HL & HR1 & _).
      rewrite HLm in HL. now injection HL as <- _ _. }
    split.
    + intros i j Hi Hj. subst rk.
      apply (forcas_norma_nonzero massas h0 0 D D); try assumption.
      exact (Hcol m Rm Pm Fm Hm HLm).
    + destruct (forcas_spec massas h0 0 D rk D Rm Hrk Hne HRm)
        as (F & FS & HF & _ & _ & HFe & _).
      exists F, FS. split; [assumption|].
      intros i j k Hi Hj Hk. rewrite HFe by assumption. apply F_entry_G0.
  - subst rk.
    destruct (laco_livre massas h0 0 D HN Hlivre n R P None HR HP)
      as (R' & F' & HL & HR' & Hget & HF').
    exists R', F'. split_all; try assumption.
    intros Hn. destruct (HF' Hn) as [F ->]. exists F.
    unfold aplicarNVezes. now rewrite HL.
Qed.

(** X14: with step size [h = 0] time stands still.  Where no two particles
    coincide [forcas] divides by no zero, and after any number of passes the
    positions and momenta are exactly the ones given; for [n >= 1]
    [aplicarNVezes] returns them. *)
Theorem X14_zero_step_size_freezes_state (massas : list real) (G0 : real)
    (D : nat) (rk : RK4) (R P : mat) (n : nat) (E : real) :
  init massas 0 G0 D = Ok rk ->
  massas <> [] ->
  shape2 (length massas) D R ->
  shape2 (length massas) D P ->
  distintas (length massas) D R ->
  (forall i j, (i < length massas)%nat -> (j < length massas)%nat ->
     get2 (forcas_norma rk R) i j <> 0)
  /\ exists F',
       laco rk n R P None = Ok (R, P, F')
       /\ ((0 < n)%nat -> exists F, aplicarNVezes rk R P n E = Ok (R, P, F)).
Proof.
  intros Hrk Hne HR HP Hd. apply init_inv in Hrk. subst rk.
  assert (HN : (0 < length massas)%nat)
    by (destruct massas; [congruence | cbn; lia]).
  split.
  { intros i j Hi Hj.
    now apply (forcas_norma_nonzero massas 0 G0 D D). }
  assert (HL : forall m F0,
            exists F', laco (built massas 0 G0 D) m R P F0 = Ok (R, P, F')
                       /\ ((0 < m)%nat -> exists F, F' = Some F)).
  { induction m as [|m IH]; intros F0.
    - exists F0. split; [reflexivity|]. intros Hm. exfalso. lia.
    - destruct (passo_h0 massas G0 D R P HN HR HP) as (F & FS & HF & HRK).
      destruct (IH (Some F)) as (F' & HL & HF').
      exists F'. cbn [laco]. rewrite HF. cbn [bind]. rewrite HRK.
      split; [assumption|]. intros _. destruct m as [|m'].
      + cbn [laco] in HL. injection HL as <-. now exists F.
      + apply HF'. lia. }
  destruct (HL n None) as (F' & HLn & HF').
  exists F'. split; [assumption|].
  intros Hn. destruct (HF' Hn) as [F ->]. exists F.
  unfold aplicarNVezes. now rewrite HLn.
Qed.

Lemma X14_zero_step_size_freezes_state_witness :
  (forall i j, (i < 2)%nat -> (j < 2)%nat ->
     get2 (forcas_norma (built massas_dois 0 1 1) R_dois) i j <> 0)
  /\ exists F',
       laco (built massas_dois 0 1 1) 7 R_dois [[1]; [-3]] None
       = Ok (R_dois, [[1]; [-3]], F')
       /\ ((0 < 7)%nat ->
             exists F,
               aplicarNVezes (built massas_dois 0 1 1) R_dois [[1]; [-3]] 7 0
               = Ok (R_dois, [[1]; [-3]], F)).
Proof.
  apply (X14_zero_step_size_freezes_state massas_dois 1 1
           (built massas_dois 0 1 1) R_dois [[1]; [-3]] 7 0).
  - apply init_ok. right. intros [H | [H | []]]; lra.
  - exact massas_dois_nonempty.
  - exact shape2_R_dois.
  - split; [reflexivity|]. repeat constructor.
  - exact distintas_dois.
Defined.

(** ** The driver's state can be advanced *)

Section DriverAvanca.

Variable ExnH : Type.
Variable H : mat -> mat -> list R -> ExnH + R.

(** X11: a driver built from a valid mass list and N x D positions and
    momenta, when [H] returns, stores the dimension D, [n = 100] and the
    value of [H] as both [E0] and [E].  Its integrator advances the stored
    state by the stored number of passes, as long as no two particles
    coincide at the positions entering a pass: the call returns N x D
    positions and momenta, and the total momentum is the initial one. *)
Theorem X11_driver_state_can_be_advanced (massas : list R) (R0 P0 : mat)
    (h0 G0 : R) (D : nat) (e0 : R) :
  massas_validas massas ->
  shape2 (List.length massas) D R0 ->
  shape2 (List.length massas) D P0 ->
  H R0 P0 massas = inr e0 ->
  sem_colisao (built massas h0 G0 D) (List.length massas) D 100 R0 P0 ->
  exists s,
    Simular.init ExnH H massas R0 P0 h0 G0 = inr s
    /\ Simular.metodo s = built massas h0 G0 D
    /\ Simular.dimensao s = D
    /\ Simular.n s = 100%nat
    /\ Simular.E0 s = e0
    /\ Simular.E s = e0
    /\ Simular.R s = R0
    /\ Simular.P s = P0
    /\ exists R' P' F,
         aplicarNVezes (Simular.metodo s) (Simular.R s) (Simular.P s)
           (Simular.n s) (Simular.E s) = Ok (R', P', F)
         /\ shape2 (List.length massas) D R'
         /\ shape2 (List.length massas) D P'
         /\ forall k, (k < D)%nat ->
              total (List.length massas) P' k = total (List.length massas) P0 k.
Proof.
  intros Hm HR HP HH _.
  pose proof (massas_validas_length massas Hm) as HN.
  pose proof (massas_validas_nonzero massas Hm) as H0.
  destruct R0 as [|R00 Rs]; [destruct HR as [HL _]; cbn in HL; lia|].
  assert (HD : List.length R00 = D).
  { destruct HR as [_ HF]. now inversion HF. }
  unfold Simular.init, Simular.metodo_integracao.
  rewrite HD, (init_ok massas h0 G0 D) by now right.
  rewrite HH. eexists. split; [reflexivity|].
  cbn [Simular.dimensao Simular.n Simular.E Simular.E0 Simular.metodo
       Simular.R Simular.P].
  split_all; try reflexivity.
  destruct (laco_momentum massas h0 G0 D HN 100 (R00 :: Rs) P0 None HR HP)
    as (R' & P' & F' & HL & HR' & HP' & Htot & _ & HF').
  destruct HF' as [F ->]; [lia|].
  exists R', P', F. split_all; try assumption.
  unfold aplicarNVezes. now rewrite HL.
Qed.

End DriverAvanca.

(** Two bodies without gravity, moving apart, never meet. *)
Lemma avanco_afasta : 0 < avanco 0.01 (1 / 1) 1.
Proof. unfold avanco. cbn [pow]. lra. Qed.

Lemma sem_colisao_afastando (n : nat) :
  sem_colisao (built massas_dois 0.01 0 1) 2 1 n R_dois [[-1]; [1]].
Proof.
  intros m Rm Pm Fm _ HL.
  assert (HP : shape2 2 1 [[-1]; [1]])
    by (split; [reflexivity | repeat constructor]).
  destruct (laco_livre massas_dois 0.01 0 1) with (n := m) (R := R_dois)
    (P := [[-1]; [1]]) (F0 := @None tensor)
    as (R1 & F1 & HL1 & _ & Hget & _);
    try assumption; try exact shape2_R_dois; try (cbn; lia).
  { intros r j k _ _.
    rewrite (rsum_ext _ _ (fun _ => 0)) by (intros; apply F_entry_G0).
    apply rsum_zero. }
  rewrite HL in HL1. injection HL1 as <- _ _.
  intros i j Hi Hj Hij. exists 0%nat. split; [lia|].
  pose proof avanco_afasta as Ha. pose proof (pos_INR m) as Hm.
  assert (Hneg : avanco 0.01 (1 / 1) (-1) = - avanco 0.01 (1 / 1) 1)
    by (unfold avanco; ring).
  assert (H0 : get2 Rm 0 0 = -1 + INR m * avanco 0.01 (1 / 1) (-1))
    by (apply (Hget 0%nat 0%nat); cbn; lia).
  assert (H1 : get2 Rm 1 0 = 1 + INR m * avanco 0.01 (1 / 1) 1)
    by (apply (Hget 1%nat 0%nat); cbn; lia).
  rewrite Hneg in H0.
  destruct i as [|[|i]]; destruct j as [|[|j]]; try lia;
    rewrite H0, H1; nra.
Qed.

Lemma X11_driver_state_can_be_advanced_witness :
  exists s,
    Simular.init Empty_set (fun _ _ _ => inr 5) massas_dois R_dois
      [[-1]; [1]] 0.01 0
    = inr s
    /\ Simular.metodo s = built massas_dois 0.01 0 1
    /\ Simular.dimensao s = 1%nat
    /\ Simular.n s = 100%nat
    /\ Simular.E0 s = 5
    /\ Simular.E s = 5
    /\ Simular.R s = R_dois
    /\ Simular.P s = [[-1]; [1]]
    /\ exists R' P' F,
         aplicarNVezes (Simular.metodo s) (Simular.R s) (Simular.P s)
           (Simular.n s) (Simular.E s) = Ok (R', P', F)
         /\ shape2 2 1 R'
         /\ shape2 2 1 P'
         /\ forall k, (k < 1)%nat -> total 2 P' k = total 2 [[-1]; [1]] k.
Proof.
  apply (X11_driver_state_can_be_advanced Empty_set (fun _ _ _ => inr 5)
           massas_dois R_dois [[-1]; [1]] 0.01 0 1 5).
  - exact massas_dois_validas.
  - exact shape2_R_dois.
  - split; [reflexivity|]. repeat constructor.
  - reflexivity.
  - exact (sem_colisao_afastando 100).
Defined.

Lemma X5_no_gravity_no_interaction_witness :
  (forall m Rm Pm Fm, (m < 4)%nat ->
     laco (built massas_dois 0.01 0 1) m R_dois [[-1]; [1]] None
     = Ok (Rm, Pm, Fm) ->
     (forall i j, (i < 2)%nat -> (j < 2)%nat ->
        get2 (forcas_norma (built massas_dois 0.01 0 1) Rm) i j <> 0)
     /\ exists F FSomas,
          forcas (built massas_dois 0.01 0 1) Rm = Ok (F, FSomas)
          /\ forall i j k, (i < 2)%nat -> (j < 2)%nat -> (k < 1)%nat ->
               get3 F i j k = 0)
  /\ exists R' F',
       laco (built massas_dois 0.01 0 1) 4 R_dois [[-1]; [1]] None
       = Ok (R', [[-1]; [1]], F')
       /\ (forall i k, (i < 2)%nat -> (k < 1)%nat ->
             get2 R' i k
             = get2 R_dois i k
               + INR 4 * avanco 0.01 (1 / nth i massas_dois 0)
                           (get2 [[-1]; [1]] i k))
       /\ ((0 < 4)%nat ->
             exists F,
               aplicarNVezes (built massas_dois 0.01 0 1) R_dois [[-1]; [1]] 4 0
               = Ok (R', [[-1]; [1]], F)).
Proof.
  apply (X5_no_gravity_no_interaction massas_dois 0.01 1
           (built massas_dois 0.01 0 1) R_dois [[-1]; [1]] 4 0).
  - apply init_ok. right. intros [H | [H | []]]; lra.
  - exact massas_dois_nonempty.
  - exact shape2_R_dois.
  - split; [reflexivity|]. repeat constructor.
  - exact (sem_colisao_afastando 4).
Defined.
